(** * cc0::allocator -- an in-place first-fit allocator (alloc.h, alloc.cpp)

    A shallow embedding of the allocator of SirJonthe/alloc.  The allocator
    keeps all of its bookkeeping inside the caller's buffer: every block
    starts with a [Block] header of two [uint32_t] fields,

      - [size_flags] at byte offset 0: bit 31 is the occupied flag, the low
        31 bits the number of payload bytes;
      - [prev] at byte offset 4: the distance back to the previous header,
        0 for "no previous block".

    Modelling decisions.

      - Addresses are mathematical integers ([Z]); [nullptr] of a [Block*]
        or of the pointer returned by [alloc] is [None].
      - Memory is flat and byte addressed ([memory]); a [uint32_t] is read
        and written as four bytes, least significant byte first.  Headers
        may overlap (the code never checks), so bytes, not words, are the
        unit of the store.
      - [uint32_t] arithmetic wraps: every sum and difference the code
        computes in that type goes through [u32].
      - The [while] loop of [alloc] is a [Fixpoint] on a step budget; the
        budget [alloc] passes is proved sufficient ([scan_fuel]).
      - Dereferencing [nullptr] (line 98 of alloc.cpp, when [get_next]
        answers [nullptr]) is the fault [NullDeref]. *)

From Stdlib Require Import ZArith List Bool Lia Sorted.
Import ListNotations.
Local Open Scope Z_scope.

(** ** Machine integers *)

Definition u32 (x : Z) : Z := x mod 2 ^ 32.

Definition FLAG_MASK : Z := 0x80000000.
Definition SIZE_MASK : Z := 0x7fffffff.

(** [sizeof(Block)]: two [uint32_t], no padding. *)
Definition sizeof_Block : Z := 8.

(** ** Memory *)

Definition memory := Z -> Z.

Definition load8 (m : memory) (a : Z) : Z := m a mod 256.

Definition store8 (m : memory) (a v : Z) : memory :=
  fun a' => if a' =? a then v mod 256 else m a'.

Definition load32 (m : memory) (a : Z) : Z :=
  load8 m a
  + Z.shiftl (load8 m (a + 1)) 8
  + Z.shiftl (load8 m (a + 2)) 16
  + Z.shiftl (load8 m (a + 3)) 24.

Definition store32 (m : memory) (a v : Z) : memory :=
  store8 (store8 (store8 (store8 m a v)
                         (a + 1) (Z.shiftr v 8))
                 (a + 2) (Z.shiftr v 16))
         (a + 3) (Z.shiftr v 24).

(** [memset(p, 0, n)] *)
Definition memset0 (m : memory) (p n : Z) : memory :=
  fun a => if (p <=? a) && (a <? p + n) then 0 else m a.

(** ** The allocator object and the memory it points into *)

Record allocator : Type := mk_allocator {
  m_mem : Z;              (* uint8_t *m_mem *)
  m_size : Z;             (* uint32_t *)
  m_align_bytes : Z;      (* uint32_t *)
  m_block_alignment : Z;  (* uint32_t *)
  m_occupied : Z;         (* uint32_t *)
  ram : memory            (* the bytes m_mem points into *)
}.

Definition with_ram (a : allocator) (m : memory) : allocator :=
  mk_allocator (m_mem a) (m_size a) (m_align_bytes a) (m_block_alignment a)
               (m_occupied a) m.

Definition with_block_alignment (a : allocator) (v : Z) : allocator :=
  mk_allocator (m_mem a) (m_size a) (m_align_bytes a) v (m_occupied a) (ram a).

Definition with_occupied (a : allocator) (v : Z) : allocator :=
  mk_allocator (m_mem a) (m_size a) (m_align_bytes a) (m_block_alignment a)
               v (ram a).

(** Field access through a [Block*]. *)
Definition size_flags (a : allocator) (b : Z) : Z := load32 (ram a) b.
Definition prev (a : allocator) (b : Z) : Z := load32 (ram a) (b + 4).

Definition set_size_flags (a : allocator) (b v : Z) : allocator :=
  with_ram a (store32 (ram a) b v).
Definition set_prev (a : allocator) (b v : Z) : allocator :=
  with_ram a (store32 (ram a) (b + 4) v).

(** ** Private helpers (alloc.cpp lines 10-63) *)

Definition get_size (a : allocator) (b : Z) : Z :=
  Z.land (size_flags a b) SIZE_MASK.

Definition get_prev (a : allocator) (b : Z) : option Z :=
  let p := b - prev a b in
  if p <? m_mem a then None
  else if prev a b >? 0 then Some p else None.

Definition get_next (a : allocator) (b : Z) : option Z :=
  let next := get_size a b in
  let p := b + next in
  if p >=? m_mem a + m_size a then None
  else if next >? 0 then Some p else None.

Definition set_free (a : allocator) (b : Z) : allocator :=
  set_size_flags a b (Z.land (size_flags a b) SIZE_MASK).

Definition set_occupied (a : allocator) (b : Z) : allocator :=
  set_size_flags a b (Z.lor (size_flags a b) FLAG_MASK).

Definition is_free (a : allocator) (b : Z) : bool :=
  Z.land (size_flags a b) FLAG_MASK =? 0.

Definition is_occupied (a : allocator) (b : Z) : bool :=
  negb (Z.land (size_flags a b) FLAG_MASK =? 0).

Definition set_size (a : allocator) (b size : Z) : allocator :=
  set_size_flags a b
    (Z.lor (Z.land (size_flags a b) FLAG_MASK) (Z.land size SIZE_MASK)).

Definition align_num_bytes (a : allocator) (num_bytes : Z) : Z :=
  u32 ((num_bytes / m_align_bytes a) * m_align_bytes a
       + m_align_bytes a * (if num_bytes mod m_align_bytes a >? 0 then 1 else 0)).

(** ** Constructor (lines 65-75) *)

(** [ram0] is the memory before the call; [m_block_alignment] has no value
    until line 71 assigns it and is not read before. *)

Definition allocator_new (ram0 : memory) (mem size align_bytes : Z) : allocator :=
  let a := mk_allocator mem size (if align_bytes >? 0 then align_bytes else 1)
                        0 0 (memset0 ram0 mem size) in
  let b := m_mem a in
  let a := set_prev a b 0 in
  let a := with_block_alignment a (align_num_bytes a sizeof_Block) in
  let a := set_size a b (u32 (m_size a - m_block_alignment a)) in
  let a := set_free a b in
  with_occupied a (u32 (m_occupied a + m_block_alignment a)).

(** ** alloc (lines 77-105) *)

Inductive fault : Type :=
| NullDeref   (* a store through nullptr *)
| OutOfFuel.  (* the step budget of the model ran out *)

Inductive result (A : Type) : Type :=
| Ok (x : A)
| Err (e : fault).
Arguments Ok {A} x.
Arguments Err {A} e.

(** The loop of lines 85-87.  [b = None] is [b == nullptr]. *)
Fixpoint scan (fuel : nat) (a : allocator) (num_bytes : Z) (b : option Z)
  : result (option Z) :=
  match b with
  | None => Ok None
  | Some p =>
      if is_occupied a p || (get_size a p <? num_bytes) then
        match fuel with
        | O => Err OutOfFuel
        | S fuel' => scan fuel' a num_bytes (get_next a p)
        end
      else Ok (Some p)
  end.

Definition scan_budget (a : allocator) : nat := S (Z.to_nat (m_size a)).

(** Lines 92-104, for the block [b] the loop selected. *)
Definition take_block (a : allocator) (num_bytes b : Z)
  : result (allocator * option Z) :=
  let a := set_occupied a b in
  if get_size a b >=? u32 (num_bytes + m_align_bytes a + m_block_alignment a) then
    let free_size := u32 (get_size a b - num_bytes - m_block_alignment a) in
    let a := set_size a b num_bytes in
    match get_next a b with
    | None => Err NullDeref
    | Some n =>
        let a := set_free a n in
        let a := set_size a n free_size in
        let a := set_prev a n num_bytes in
        let a := with_occupied a (u32 (m_occupied a + m_block_alignment a)) in
        let a := with_occupied a (u32 (m_occupied a + get_size a b)) in
        Ok (a, Some (b + m_block_alignment a))
    end
  else
    let a := with_occupied a (u32 (m_occupied a + get_size a b)) in
    Ok (a, Some (b + m_block_alignment a)).

Definition alloc (a : allocator) (num_bytes : Z) : result (allocator * option Z) :=
  if num_bytes =? 0 then Ok (a, None)
  else
    let num_bytes := align_num_bytes a num_bytes in
    match scan (scan_budget a) a num_bytes (Some (m_mem a)) with
    | Err e => Err e
    | Ok None => Ok (a, None)
    | Ok (Some b) => take_block a num_bytes b
    end.

(** ** free (lines 107-136) *)

(** Lines 120-125: returns the state, the current block and [remove_block]. *)
Definition coalesce_prev (a : allocator) (b : Z) (remove_block : bool)
  : allocator * Z * bool :=
  match get_prev a b with
  | Some p =>
      if is_free a p
      then (set_size a p (u32 (get_size a b + get_size a p)), p, true)
      else (a, b, remove_block)
  | None => (a, b, remove_block)
  end.

(** Lines 127-131. *)
Definition coalesce_next (a : allocator) (b : Z) (remove_block : bool)
  : allocator * bool :=
  match get_next a b with
  | Some n =>
      if is_free a n
      then (set_size a b (u32 (get_size a b + get_size a n)), true)
      else (a, remove_block)
  | None => (a, remove_block)
  end.

Definition free (a : allocator) (mem : Z) : allocator :=
  let mem := mem - m_block_alignment a in
  if (mem >=? m_mem a + m_size a) || (mem <? m_mem a) then a
  else
    let b := mem in
    let a := set_free a b in
    let a := with_occupied a (u32 (m_occupied a - get_size a b)) in
    let '(a, b, remove_block) := coalesce_prev a b false in
    let '(a, remove_block) := coalesce_next a b remove_block in
    if remove_block
    then with_occupied a (u32 (m_occupied a - m_block_alignment a))
    else a.

Definition occupied_bytes (a : allocator) : Z := m_occupied a.
Definition total_bytes (a : allocator) : Z := m_size a.

(** ** The block list, as the allocator itself walks it *)

(** The headers reached from [b] by repeated [get_next]. *)
Fixpoint blocks (fuel : nat) (a : allocator) (b : option Z) : list Z :=
  match fuel, b with
  | S fuel', Some p => p :: blocks fuel' a (get_next a p)
  | _, _ => []
  end.

Definition all_blocks (a : allocator) : list Z :=
  blocks (scan_budget a) a (Some (m_mem a)).

(** The test the loop of [alloc] stops at: free, and large enough. *)
Definition fits (a : allocator) (num_bytes b : Z) : bool :=
  is_free a b && (num_bytes <=? get_size a b).

(** The bytes a block stands for: its header footprint and its payload. *)
Definition extent (a : allocator) (b : Z) : Z :=
  m_block_alignment a + get_size a b.

Definition tiling_sum (a : allocator) : Z :=
  fold_right Z.add 0 (map (extent a) (all_blocks a)).

(** The same sum without zero-size blocks, which [get_next] treats as the
    end of the list. *)
Definition tiling_sum_nonempty (a : allocator) : Z :=
  fold_right Z.add 0
    (map (extent a) (filter (fun b => get_size a b >? 0) (all_blocks a))).

(** One row per block: address, payload size, free flag, [prev]. *)
Definition layout (a : allocator) : list (Z * Z * bool * Z) :=
  map (fun b => (b, get_size a b, is_free a b, prev a b)) (all_blocks a).

(** A free block whose next block is free as well. *)
Definition free_pair (a : allocator) (b : Z) : bool :=
  is_free a b &&
  match get_next a b with
  | Some n => is_free a n
  | None => false
  end.

Definition adjacent_free (a : allocator) : bool :=
  existsb (free_pair a) (all_blocks a).

(** Which of the two merges a call [free(mem)] performs: the tests of
    lines 121 and 128, in the states in which [free] evaluates them. *)
Definition free_merges (a : allocator) (mem : Z) : bool * bool :=
  let mem := mem - m_block_alignment a in
  if (mem >=? m_mem a + m_size a) || (mem <? m_mem a) then (false, false)
  else
    let b := mem in
    let a := set_free a b in
    let a := with_occupied a (u32 (m_occupied a - get_size a b)) in
    let '(a, b, merged_prev) := coalesce_prev a b false in
    let '(_, merged_next) := coalesce_next a b false in
    (merged_prev, merged_next).

(** ** Client programs *)

Inductive call : Type :=
| Alloc (num_bytes : Z)   (* p_i = alloc(num_bytes), i counting from 0 *)
| Free (i : nat)          (* free(p_i) *)
| FreeAt (mem : Z).       (* free(mem) for an arbitrary address *)

(** A null [p_i] is passed on as address 0. *)
Definition addr_of (p : option Z) : Z :=
  match p with
  | Some x => x
  | None => 0
  end.

Fixpoint run (a : allocator) (ps : list (option Z)) (cs : list call)
  : result (allocator * list (option Z)) :=
  match cs with
  | [] => Ok (a, ps)
  | Alloc n :: cs' =>
      match alloc a n with
      | Ok (a', p) => run a' (ps ++ [p]) cs'
      | Err e => Err e
      end
  | Free i :: cs' => run (free a (addr_of (nth i ps None))) ps cs'
  | FreeAt mem :: cs' => run (free a mem) ps cs'
  end.

(** What a client sees of the final state, with the pointers it was given. *)
Definition observe {A : Type} (f : allocator -> A)
  (r : result (allocator * list (option Z))) : result (A * list (option Z)) :=
  match r with
  | Ok (a, ps) => Ok (f a, ps)
  | Err e => Err e
  end.

(** The buffer of the examples: 64 bytes at address 1000, alignment 8. *)
Definition buf64 (ram0 : memory) : allocator := allocator_new ram0 1000 64 8.

(** Two smaller ones: 16 bytes with alignment 8, 9 bytes with alignment 1. *)
Definition buf16 (ram0 : memory) : allocator := allocator_new ram0 1000 16 8.
Definition buf9 (ram0 : memory) : allocator := allocator_new ram0 1000 9 1.

(** * Properties *)

(** ** Memory: what a load sees after a store *)

Section Memory.

Variable m : memory.

Lemma load8_bound (p : Z) : 0 <= load8 m p < 256.
Proof. unfold load8. apply Z.mod_pos_bound. lia. Qed.

Lemma load8_store8 (p v q : Z) :
  load8 (store8 m p v) q = if q =? p then v mod 256 else load8 m q.
Proof.
  unfold load8, store8. destruct (q =? p); [|reflexivity].
  apply Z.mod_mod. lia.
Qed.

Lemma load32_bound (p : Z) : 0 <= load32 m p < 2 ^ 32.
Proof.
  unfold load32. rewrite !Z.shiftl_mul_pow2 by lia.
  pose proof (load8_bound p). pose proof (load8_bound (p + 1)).
  pose proof (load8_bound (p + 2)). pose proof (load8_bound (p + 3)).
  change (2 ^ 8) with 256. change (2 ^ 16) with 65536.
  change (2 ^ 24) with 16777216. change (2 ^ 32) with 4294967296. lia.
Qed.

End Memory.

Ltac eqb_cases :=
  repeat match goal with
         | |- context [?x =? ?y] => destruct (Z.eqb_spec x y); try lia
         end.

Lemma load32_store32_same (m : memory) (p v : Z) :
  load32 (store32 m p v) p = v mod 2 ^ 32.
Proof.
  unfold load32, store32. rewrite !load8_store8. eqb_cases.
  rewrite !Z.shiftl_mul_pow2, !Z.shiftr_div_pow2 by lia.
  change (2 ^ 8) with 256. change (2 ^ 16) with 65536.
  change (2 ^ 24) with 16777216. change (2 ^ 32) with 4294967296.
  Z.div_mod_to_equations. lia.
Qed.

Lemma load32_store32_other (m : memory) (p v q : Z) :
  q + 4 <= p \/ p + 4 <= q -> load32 (store32 m p v) q = load32 m q.
Proof.
  intros H. unfold load32, store32. rewrite !load8_store8. eqb_cases.
Qed.

(** ** The two bit fields of size_flags *)

Lemma SIZE_MASK_ones : SIZE_MASK = Z.ones 31.
Proof. reflexivity. Qed.

Lemma FLAG_MASK_pow : FLAG_MASK = 2 ^ 31.
Proof. reflexivity. Qed.

Lemma land_SIZE_MASK (x : Z) : Z.land x SIZE_MASK = x mod 2 ^ 31.
Proof. rewrite SIZE_MASK_ones. apply Z.land_ones. lia. Qed.

Lemma land_FLAG_MASK (x : Z) :
  Z.land x FLAG_MASK = if Z.testbit x 31 then 2 ^ 31 else 0.
Proof.
  rewrite FLAG_MASK_pow. apply Z.bits_inj'. intros i Hi.
  rewrite Z.land_spec, Z.pow2_bits_eqb by lia.
  destruct (Z.eqb_spec 31 i) as [<-|Hne].
  - rewrite andb_true_r. destruct (Z.testbit x 31).
    + rewrite Z.pow2_bits_true by lia. reflexivity.
    + rewrite Z.bits_0. reflexivity.
  - rewrite andb_false_r. destruct (Z.testbit x 31).
    + rewrite Z.pow2_bits_false by lia. reflexivity.
    + rewrite Z.bits_0. reflexivity.
Qed.

Lemma mod32_mod31 (x : Z) : (x mod 2 ^ 32) mod 2 ^ 31 = x mod 2 ^ 31.
Proof.
  change (2 ^ 32) with 4294967296. change (2 ^ 31) with 2147483648.
  Z.div_mod_to_equations. lia.
Qed.

Lemma u32_add_l (x y : Z) : u32 (u32 x + y) = u32 (x + y).
Proof. unfold u32. apply Zplus_mod_idemp_l. Qed.

Lemma u32_sub_l (x y : Z) : u32 (u32 x - y) = u32 (x - y).
Proof. unfold u32. apply Zminus_mod_idemp_l. Qed.

(** ** Header fields after the setters *)

Section Header.

Variable a : allocator.
Variable b : Z.

Lemma get_size_bound : 0 <= get_size a b < 2 ^ 31.
Proof.
  unfold get_size. rewrite land_SIZE_MASK. apply Z.mod_pos_bound. lia.
Qed.

Lemma is_occupied_is_free : is_occupied a b = negb (is_free a b).
Proof. reflexivity. Qed.

Lemma is_free_testbit : is_free a b = negb (Z.testbit (size_flags a b) 31).
Proof.
  unfold is_free. rewrite land_FLAG_MASK.
  destruct (Z.testbit _ 31); reflexivity.
Qed.

Lemma size_flags_set (v : Z) :
  size_flags (set_size_flags a b v) b = v mod 2 ^ 32.
Proof. unfold size_flags, set_size_flags. cbn. apply load32_store32_same. Qed.

Lemma size_flags_set_other (v x : Z) :
  x + 4 <= b \/ b + 4 <= x ->
  size_flags (set_size_flags a b v) x = size_flags a x.
Proof.
  intros H. unfold size_flags, set_size_flags. cbn.
  apply load32_store32_other. exact H.
Qed.

Lemma size_flags_set_prev (v x : Z) :
  x <= b \/ b + 8 <= x -> size_flags (set_prev a b v) x = size_flags a x.
Proof.
  intros H. unfold size_flags, set_prev. cbn.
  apply load32_store32_other. lia.
Qed.

Lemma prev_set_prev (v : Z) : prev (set_prev a b v) b = v mod 2 ^ 32.
Proof. unfold prev, set_prev. cbn. apply load32_store32_same. Qed.

Lemma get_size_set_size_flags (v : Z) :
  get_size (set_size_flags a b v) b = v mod 2 ^ 31.
Proof.
  unfold get_size. rewrite size_flags_set, land_SIZE_MASK. apply mod32_mod31.
Qed.

Lemma is_free_set_size_flags (v : Z) :
  is_free (set_size_flags a b v) b = negb (Z.testbit v 31).
Proof.
  unfold is_free. rewrite size_flags_set, land_FLAG_MASK.
  rewrite Z.mod_pow2_bits_low by lia.
  destruct (Z.testbit v 31); reflexivity.
Qed.

Lemma get_size_set_free : get_size (set_free a b) b = get_size a b.
Proof.
  unfold set_free. rewrite get_size_set_size_flags.
  unfold get_size. rewrite !land_SIZE_MASK.
  apply Z.mod_mod. lia.
Qed.

Lemma is_free_set_free : is_free (set_free a b) b = true.
Proof.
  unfold set_free. rewrite is_free_set_size_flags, land_SIZE_MASK.
  rewrite Z.mod_pow2_bits_high by lia. reflexivity.
Qed.

Lemma get_size_set_occupied : get_size (set_occupied a b) b = get_size a b.
Proof.
  unfold set_occupied. rewrite get_size_set_size_flags.
  unfold get_size. rewrite land_SIZE_MASK.
  apply Z.bits_inj'. intros i Hi.
  destruct (Z.ltb_spec i 31).
  - rewrite !Z.mod_pow2_bits_low by lia.
    rewrite Z.lor_spec, FLAG_MASK_pow, Z.pow2_bits_false by lia.
    apply orb_false_r.
  - rewrite !Z.mod_pow2_bits_high by lia. reflexivity.
Qed.

Lemma is_occupied_set_occupied : is_occupied (set_occupied a b) b = true.
Proof.
  unfold is_occupied. fold (is_free (set_occupied a b) b).
  unfold set_occupied.
  rewrite is_free_set_size_flags, Z.lor_spec, FLAG_MASK_pow.
  rewrite Z.pow2_bits_true by lia. rewrite orb_true_r. reflexivity.
Qed.

Lemma get_size_set_size (s : Z) : get_size (set_size a b s) b = s mod 2 ^ 31.
Proof.
  unfold set_size. rewrite get_size_set_size_flags.
  rewrite land_SIZE_MASK.
  apply Z.bits_inj'. intros i Hi.
  destruct (Z.ltb_spec i 31).
  - rewrite !Z.mod_pow2_bits_low by lia.
    rewrite Z.lor_spec, Z.mod_pow2_bits_low by lia.
    rewrite land_FLAG_MASK.
    destruct (Z.testbit (size_flags a b) 31).
    + rewrite Z.pow2_bits_false by lia. reflexivity.
    + rewrite Z.bits_0. reflexivity.
  - rewrite !Z.mod_pow2_bits_high by lia. reflexivity.
Qed.

Lemma is_free_set_size (s : Z) : is_free (set_size a b s) b = is_free a b.
Proof.
  unfold set_size. rewrite is_free_set_size_flags, is_free_testbit.
  f_equal. rewrite Z.lor_spec, land_SIZE_MASK.
  rewrite Z.mod_pow2_bits_high by lia. rewrite orb_false_r.
  rewrite land_FLAG_MASK.
  destruct (Z.testbit (size_flags a b) 31).
  - apply Z.pow2_bits_true. lia.
  - apply Z.bits_0.
Qed.

End Header.

Lemma get_size_ext (a1 a2 : allocator) (x : Z) :
  size_flags a1 x = size_flags a2 x -> get_size a1 x = get_size a2 x.
Proof. unfold get_size. intros ->. reflexivity. Qed.

Lemma is_free_ext (a1 a2 : allocator) (x : Z) :
  size_flags a1 x = size_flags a2 x -> is_free a1 x = is_free a2 x.
Proof. unfold is_free. intros ->. reflexivity. Qed.

(** ** get_next *)

Lemma get_next_Some (a : allocator) (b p : Z) :
  get_next a b = Some p <->
  p = b + get_size a b /\ p < m_mem a + m_size a /\ 0 < get_size a b.
Proof.
  unfold get_next.
  destruct (b + get_size a b >=? m_mem a + m_size a) eqn:Hend;
    destruct (get_size a b >? 0) eqn:Hpos;
    split; intros H; try discriminate; try (injection H as <-); try lia.
  - destruct H as (-> & _ & _). reflexivity.
Qed.

Lemma get_next_None (a : allocator) (b : Z) :
  get_next a b = None <->
  m_mem a + m_size a <= b + get_size a b \/ get_size a b <= 0.
Proof.
  unfold get_next.
  destruct (b + get_size a b >=? m_mem a + m_size a) eqn:Hend;
    destruct (get_size a b >? 0) eqn:Hpos;
    split; intros H; try discriminate; try reflexivity; lia.
Qed.

(** ** The loop of alloc: termination and first fit *)

Section Scan.

Variable a : allocator.
Variable num_bytes : Z.

Lemma scan_enough :
  forall (fuel : nat) (b : Z),
    (1 <= fuel)%nat ->
    m_mem a + m_size a - b < Z.of_nat fuel ->
    scan fuel a num_bytes (Some b) <> Err OutOfFuel.
Proof.
  induction fuel as [|fuel IH]; intros b Hpos Hfuel; [lia|].
  cbn [scan].
  destruct (is_occupied a b || (get_size a b <? num_bytes)); [|discriminate].
  destruct (get_next a b) as [p|] eqn:Hnext.
  - apply get_next_Some in Hnext. destruct Hnext as (Hp & Hlt & Hsz).
    apply IH; lia.
  - destruct fuel; cbn; discriminate.
Qed.

Lemma scan_fuel :
  scan (scan_budget a) a num_bytes (Some (m_mem a)) <> Err OutOfFuel.
Proof.
  apply scan_enough; unfold scan_budget; lia.
Qed.

Lemma scan_not_NullDeref :
  forall (fuel : nat) (ob : option Z), scan fuel a num_bytes ob <> Err NullDeref.
Proof.
  induction fuel as [|fuel IH]; intros [b|]; cbn [scan]; try discriminate;
    destruct (is_occupied a b || (get_size a b <? num_bytes)); try discriminate.
  apply IH.
Qed.

Lemma skip_fits (b : Z) :
  is_occupied a b || (get_size a b <? num_bytes) = negb (fits a num_bytes b).
Proof.
  unfold fits. rewrite is_occupied_is_free, negb_andb. f_equal.
  rewrite Z.leb_antisym. rewrite negb_involutive. reflexivity.
Qed.

Lemma blocks_None (fuel : nat) : blocks fuel a None = [].
Proof. destruct fuel; reflexivity. Qed.

Lemma blocks_head (fuel : nat) (b x : Z) (l : list Z) :
  blocks fuel a (Some b) = x :: l -> x = b.
Proof.
  destruct fuel; cbn; [discriminate|].
  intros H. injection H as <- _. reflexivity.
Qed.

(** More fuel than the budget does not lengthen the list. *)
Lemma blocks_stable :
  forall (fuel : nat) (b : Z),
    (1 <= fuel)%nat ->
    m_mem a + m_size a - b < Z.of_nat fuel ->
    blocks (S fuel) a (Some b) = blocks fuel a (Some b).
Proof.
  induction fuel as [|fuel IH]; intros b Hpos Hfuel; [lia|].
  cbn [blocks]. f_equal.
  destruct (get_next a b) as [p|] eqn:Hnext.
  - apply get_next_Some in Hnext. destruct Hnext as (Hp & Hlt & Hsz).
    apply IH; lia.
  - rewrite blocks_None. reflexivity.
Qed.

(** The block list is in strictly increasing address order. *)
Lemma blocks_sorted :
  forall (fuel : nat) (b : Z), Sorted Z.lt (blocks fuel a (Some b)).
Proof.
  induction fuel as [|fuel IH]; intros b; cbn [blocks]; [constructor|].
  destruct (get_next a b) as [p|] eqn:Hnext.
  - constructor; [apply IH|].
    destruct (blocks fuel a (Some p)) as [|x l] eqn:Hl; constructor.
    apply blocks_head in Hl. subst x.
    apply get_next_Some in Hnext. lia.
  - rewrite blocks_None. repeat constructor.
Qed.

Lemma all_blocks_sorted : Sorted Z.lt (all_blocks a).
Proof. apply blocks_sorted. Qed.

Lemma scan_find :
  forall (fuel : nat) (ob r : option Z),
    scan fuel a num_bytes ob = Ok r ->
    find (fits a num_bytes) (blocks (S fuel) a ob) = r.
Proof.
  induction fuel as [|fuel IH]; intros [b|] r; cbn [scan blocks find];
    try (intros H; injection H as <-; reflexivity);
    rewrite skip_fits; destruct (fits a num_bytes b); cbn [negb];
    try (intros H; injection H as <-; reflexivity).
  - discriminate.
  - intros H. apply IH in H. exact H.
Qed.

(** The loop returns the first block of the list that is free and holds
    [num_bytes], null when there is none. *)
Lemma scan_first_fit :
  scan (scan_budget a) a num_bytes (Some (m_mem a))
  = Ok (find (fits a num_bytes) (all_blocks a)).
Proof.
  destruct (scan (scan_budget a) a num_bytes (Some (m_mem a))) as [r|e] eqn:Hscan.
  - apply scan_find in Hscan. rewrite blocks_stable in Hscan.
    + subst r. reflexivity.
    + unfold scan_budget. lia.
    + unfold scan_budget. lia.
  - exfalso. destruct e.
    + exact (scan_not_NullDeref _ _ Hscan).
    + exact (scan_fuel Hscan).
Qed.

End Scan.

(** Rounding, for requests that do not wrap. *)
Lemma align_num_bytes_round_up (a : allocator) (n : Z) :
  0 < m_align_bytes a -> 0 <= n -> n + m_align_bytes a <= 2 ^ 32 ->
  n <= align_num_bytes a n < n + m_align_bytes a /\
  align_num_bytes a n mod m_align_bytes a = 0.
Proof.
  intros Hal Hn Hfit. unfold align_num_bytes, u32.
  pose proof (Z.div_mod n (m_align_bytes a) ltac:(lia)) as Hdm.
  pose proof (Z.mod_pos_bound n (m_align_bytes a) Hal) as Hr.
  set (q := n / m_align_bytes a) in *. set (r := n mod m_align_bytes a) in *.
  assert (Hq : 0 <= q) by (apply Z.div_pos; lia).
  destruct (Z.gtb_spec r 0) as [Hpos|Hzero].
  - rewrite Z.mul_1_r.
    replace (q * m_align_bytes a + m_align_bytes a)
      with ((q + 1) * m_align_bytes a) by ring.
    rewrite (Z.mod_small ((q + 1) * m_align_bytes a)) by nia.
    split; [nia|]. apply Z.mod_mul. lia.
  - rewrite Z.mul_0_r, Z.add_0_r.
    rewrite (Z.mod_small (q * m_align_bytes a)) by nia.
    split; [nia|]. apply Z.mod_mul. lia.
Qed.

(** [alloc] as first fit over the block list. *)
Lemma alloc_first_fit (a : allocator) (n : Z) (Hn : n <> 0) :
  alloc a n =
  match find (fits a (align_num_bytes a n)) (all_blocks a) with
  | Some b => take_block a (align_num_bytes a n) b
  | None => Ok (a, None)
  end.
Proof.
  unfold alloc. destruct (Z.eqb_spec n 0); [contradiction|].
  rewrite scan_first_fit. reflexivity.
Qed.

Lemma take_block_pointer (a a' : allocator) (num_bytes b : Z) (p : option Z) :
  take_block a num_bytes b = Ok (a', p) -> p = Some (b + m_block_alignment a).
Proof.
  unfold take_block. destruct (_ >=? _).
  - destruct (get_next _ _); [|discriminate].
    intros H. injection H as _ <-. reflexivity.
  - intros H. injection H as _ <-. reflexivity.
Qed.

Lemma take_block_fault (a : allocator) (num_bytes b : Z) (e : fault) :
  take_block a num_bytes b = Err e -> e = NullDeref.
Proof.
  unfold take_block.
  destruct (_ >=? _); [|discriminate].
  destruct (get_next _ _); [discriminate|].
  intros H. injection H as <-. reflexivity.
Qed.

(** The only fault of [alloc] is the null store of the split. *)
Lemma alloc_fault (a : allocator) (num_bytes : Z) (e : fault) :
  alloc a num_bytes = Err e -> e = NullDeref.
Proof.
  unfold alloc.
  destruct (num_bytes =? 0); [discriminate|].
  rewrite scan_first_fit.
  destruct (find _ _); [apply take_block_fault | discriminate].
Qed.

(** ** What alloc does with the block it selected *)

(** No split: the caller gets the block with the payload size it had. *)
Lemma take_block_whole (a : allocator) (num_bytes b : Z) :
  get_size a b < u32 (num_bytes + m_align_bytes a + m_block_alignment a) ->
  take_block a num_bytes b =
  Ok (with_occupied (set_occupied a b) (u32 (m_occupied a + get_size a b)),
      Some (b + m_block_alignment a)).
Proof.
  intros Hsmall. unfold take_block. rewrite get_size_set_occupied.
  cbn [m_align_bytes m_block_alignment m_occupied set_occupied set_size_flags
       with_ram].
  destruct (Z.geb_spec (get_size a b)
              (u32 (num_bytes + m_align_bytes a + m_block_alignment a)));
    [lia|reflexivity].
Qed.

(** Split, for a rounded request of at least 4 bytes (so that the new
    header does not overlap the size field of the block itself): the block
    keeps [num_bytes]; the new header is written [num_bytes] bytes after
    the start of the block, free, with the leftover size and
    [prev = num_bytes]; the counter grows by a footprint and [num_bytes]. *)
Lemma take_block_split (a : allocator) (num_bytes b : Z) :
  u32 (num_bytes + m_align_bytes a + m_block_alignment a) <= get_size a b ->
  4 <= num_bytes < 2 ^ 31 ->
  b + num_bytes < m_mem a + m_size a ->
  exists a',
    take_block a num_bytes b = Ok (a', Some (b + m_block_alignment a)) /\
    get_size a' b = num_bytes /\
    is_occupied a' b = true /\
    get_next a' b = Some (b + num_bytes) /\
    is_free a' (b + num_bytes) = true /\
    get_size a' (b + num_bytes)
    = u32 (get_size a b - num_bytes - m_block_alignment a) mod 2 ^ 31 /\
    prev a' (b + num_bytes) = num_bytes /\
    m_occupied a' = u32 (m_occupied a + m_block_alignment a + num_bytes).
Proof.
  intros Hbig HR Hin. unfold take_block. rewrite get_size_set_occupied.
  cbn [m_align_bytes m_block_alignment m_occupied set_occupied set_size_flags
       with_ram].
  fold (set_size_flags a b (Z.lor (size_flags a b) FLAG_MASK)).
  fold (set_occupied a b).
  destruct (Z.geb_spec (get_size a b)
              (u32 (num_bytes + m_align_bytes a + m_block_alignment a)));
    [|lia].
  set (a1 := set_size (set_occupied a b) b num_bytes).
  assert (Hsz1 : get_size a1 b = num_bytes).
  { unfold a1. rewrite get_size_set_size. apply Z.mod_small. lia. }
  assert (Hnext : get_next a1 b = Some (b + num_bytes)).
  { apply get_next_Some. rewrite Hsz1. cbn. lia. }
  rewrite Hnext.
  set (fs := u32 (get_size a b - num_bytes - m_block_alignment a)).
  set (n := b + num_bytes).
  set (a4 := set_prev (set_size (set_free a1 n) n fs) n num_bytes).
  eexists. split; [reflexivity|].
  assert (Hframe : size_flags a4 b = size_flags a1 b).
  { unfold a4. rewrite size_flags_set_prev by (unfold n; lia).
    unfold set_size. rewrite size_flags_set_other by (unfold n; lia).
    unfold set_free. rewrite size_flags_set_other by (unfold n; lia).
    reflexivity. }
  assert (Hszb : get_size a4 b = num_bytes).
  { transitivity (get_size a1 b); [apply get_size_ext, Hframe | exact Hsz1]. }
  repeat split.
  - exact Hszb.
  - rewrite is_occupied_is_free.
    change (negb (is_free a4 b) = true).
    rewrite (is_free_ext a4 a1) by apply Hframe.
    unfold a1. rewrite is_free_set_size.
    rewrite <- is_occupied_is_free. apply is_occupied_set_occupied.
  - apply get_next_Some.
    change (get_size (with_occupied _ _) b) with (get_size a4 b).
    rewrite Hszb. cbn. unfold n. lia.
  - change (is_free a4 n = true). unfold a4.
    rewrite (is_free_ext _ (set_size (set_free a1 n) n fs))
      by (apply size_flags_set_prev; lia).
    rewrite is_free_set_size. apply is_free_set_free.
  - change (get_size a4 n = fs mod 2 ^ 31). unfold a4.
    rewrite (get_size_ext _ (set_size (set_free a1 n) n fs))
      by (apply size_flags_set_prev; lia).
    apply get_size_set_size.
  - change (prev a4 n = num_bytes). unfold a4.
    rewrite prev_set_prev. apply Z.mod_small. lia.
  - cbn [m_occupied with_occupied].
    change (get_size (with_occupied _ _) b) with (get_size a4 b).
    rewrite Hszb. apply u32_add_l.
Qed.

(** ** What free does to its neighbours and to the counter *)

(** A merge sets the surviving block's size to the sum of the two payload
    sizes (in the 31 bits of the size field). *)
Lemma coalesce_prev_merge (a : allocator) (b p : Z) (remove_block : bool) :
  get_prev a b = Some p -> is_free a p = true ->
  exists a',
    coalesce_prev a b remove_block = (a', p, true) /\
    get_size a' p = (get_size a b + get_size a p) mod 2 ^ 31.
Proof.
  intros Hp Hfree. unfold coalesce_prev. rewrite Hp, Hfree.
  eexists. split; [reflexivity|].
  rewrite get_size_set_size. unfold u32. apply mod32_mod31.
Qed.

Lemma coalesce_next_merge (a : allocator) (b n : Z) (remove_block : bool) :
  get_next a b = Some n -> is_free a n = true ->
  exists a',
    coalesce_next a b remove_block = (a', true) /\
    get_size a' b = (get_size a b + get_size a n) mod 2 ^ 31.
Proof.
  intros Hn Hfree. unfold coalesce_next. rewrite Hn, Hfree.
  eexists. split; [reflexivity|].
  rewrite get_size_set_size. unfold u32. apply mod32_mod31.
Qed.

Lemma coalesce_prev_counters (a : allocator) (b : Z) (remove_block : bool) :
  m_occupied (fst (fst (coalesce_prev a b remove_block))) = m_occupied a /\
  m_block_alignment (fst (fst (coalesce_prev a b remove_block)))
  = m_block_alignment a.
Proof.
  unfold coalesce_prev. destruct (get_prev a b) as [p|]; cbn; [|auto].
  destruct (is_free a p); cbn; auto.
Qed.

Lemma coalesce_next_counters (a : allocator) (b : Z) (remove_block : bool) :
  m_occupied (fst (coalesce_next a b remove_block)) = m_occupied a /\
  m_block_alignment (fst (coalesce_next a b remove_block))
  = m_block_alignment a /\
  snd (coalesce_next a b remove_block)
  = remove_block || snd (coalesce_next a b false).
Proof.
  unfold coalesce_next. destruct (get_next a b) as [n|]; cbn.
  - destruct (is_free a n); cbn; rewrite ?orb_true_r, ?orb_false_r; auto.
  - rewrite orb_false_r. auto.
Qed.

(** The counter after an in-range release: the payload size goes, and one
    footprint if at least one merge took place. *)
Lemma free_occupied (a : allocator) (mem : Z) :
  m_mem a <= mem - m_block_alignment a < m_mem a + m_size a ->
  occupied_bytes (free a mem) =
  u32 (m_occupied a - get_size a (mem - m_block_alignment a)
       - (if fst (free_merges a mem) || snd (free_merges a mem)
          then m_block_alignment a else 0)).
Proof.
  intros Hin. unfold occupied_bytes, free, free_merges.
  destruct (Z.geb_spec (mem - m_block_alignment a) (m_mem a + m_size a)); [lia|].
  destruct (Z.ltb_spec (mem - m_block_alignment a) (m_mem a)); [lia|].
  cbn [orb].
  set (b := mem - m_block_alignment a).
  set (a1 := with_occupied (set_free a b)
               (u32 (m_occupied (set_free a b) - get_size (set_free a b) b))).
  pose proof (coalesce_prev_counters a1 b false) as (Ho2 & Hb2).
  destruct (coalesce_prev a1 b false) as [[a2 b2] r1] eqn:Hprev.
  cbn [fst snd] in Ho2, Hb2.
  pose proof (coalesce_next_counters a2 b2 r1) as (Ho3 & Hb3 & Hr3).
  destruct (coalesce_next a2 b2 r1) as [a3 r] eqn:Hnext.
  destruct (coalesce_next a2 b2 false) as [a3' r2] eqn:Hnext'.
  cbn [fst snd] in Ho3, Hb3, Hr3. subst r.
  assert (Hocc1 : m_occupied a1 = u32 (m_occupied a - get_size a b)).
  { unfold a1. cbn [m_occupied with_occupied]. rewrite get_size_set_free.
    reflexivity. }
  assert (Hal1 : m_block_alignment a1 = m_block_alignment a) by reflexivity.
  cbn [fst snd]. destruct (r1 || r2).
  - cbn [m_occupied with_occupied]. rewrite Ho3, Ho2, Hb3, Hb2, Hal1, Hocc1.
    apply u32_sub_l.
  - rewrite Ho3, Ho2, Hocc1. rewrite Z.sub_0_r. reflexivity.
Qed.

(** * Conformance to the specification *)

(** ** The next-block lookup *)

(** C1 (code_bug).  A freshly constructed allocator over 64 bytes with
    alignment 8 has one block, of payload size 56 behind a header footprint
    of 8, so header_footprint + payload_size bytes after its start is the
    end of the buffer and the block has no next block.  [get_next] answers
    the address payload_size = 56 bytes after the start, which lies in the
    block's own payload: the header footprint is left out of the sum. *)
Theorem get_next_fresh_block : forall ram0 : memory,
  let a := buf64 ram0 in
  m_block_alignment a = 8 /\
  get_size a 1000 = 56 /\
  1000 + m_block_alignment a + get_size a 1000 = m_mem a + m_size a /\
  get_next a 1000 = Some 1056.
Proof.
  intros ram0. vm_compute. repeat split; reflexivity.
Qed.

(** ** The layout after allocate and release calls *)

(** C2 (code_bug).  On the 64-byte buffer: allocate 8 bytes twice, release
    the second pointer, release the first.  Every byte is free again, and
    the block list is one block of payload 40 followed by a zero-size block
    at offset 40: header footprints plus payload sizes add up to 56 (48
    without the zero-size block), not to the 64 bytes of the buffer.  Each
    merge adds payload sizes only, so the footprint of the absorbed header
    is lost. *)
Theorem tiling_lost_after_release : forall ram0 : memory,
  observe (fun a => (layout a, tiling_sum a, tiling_sum_nonempty a, total_bytes a))
          (run (buf64 ram0) [] [Alloc 8; Alloc 8; Free 1%nat; Free 0%nat])
  = Ok (([(1000, 40, true, 0); (1040, 0, true, 0)], 56, 48, 64),
        [Some 1008; Some 1016]).
Proof.
  intros ram0. vm_compute. reflexivity.
Qed.

(** C3 (code_bug).  On the 64-byte buffer: allocate 8 bytes twice and
    release the first pointer.  Releasing the second pointer (1016, payload
    size 8, footprint 8) then merges with the previous and with the next
    block, and the counter goes from 32 to 16: payload size and one
    footprint, where two headers disappeared (32 - 8 - 2 * 8 = 8). *)
Theorem double_merge_reclaims_one_footprint : forall ram0 : memory,
  observe (fun a => (occupied_bytes a, get_size a 1008, m_block_alignment a,
                     free_merges a 1016, occupied_bytes (free a 1016)))
          (run (buf64 ram0) [] [Alloc 8; Alloc 8; Free 0%nat])
  = Ok ((32, 8, 8, (true, true), 16), [Some 1008; Some 1016]).
Proof.
  intros ram0. vm_compute. reflexivity.
Qed.

(** C4 (code_bug).  Forward merge: after one allocation of 8 bytes the
    blocks have payloads 8 and 40; releasing the pointer merges the second
    into the first, whose payload becomes 48 = 8 + 40, not 8 + (8 + 40).
    Backward merge: after three allocations of 8 bytes and the release of
    the first, releasing the second pointer merges its block (payload 8)
    into the first, whose payload becomes 16 = 8 + 8, not 8 + (8 + 8).  In
    both the absorbed header footprint of 8 is not added. *)
Theorem merge_adds_payload_only : forall ram0 : memory,
  observe (fun a => (get_size a 1000, get_size a 1008, m_block_alignment a,
                     free_merges a 1008, get_size (free a 1008) 1000))
          (run (buf64 ram0) [] [Alloc 8])
  = Ok ((8, 40, 8, (false, true), 48), [Some 1008])
  /\
  observe (fun a => (get_size a 1000, get_size a 1008, m_block_alignment a,
                     free_merges a 1016, get_size (free a 1016) 1000))
          (run (buf64 ram0) [] [Alloc 8; Alloc 8; Alloc 8; Free 0%nat])
  = Ok ((8, 8, 8, (true, false), 16), [Some 1008; Some 1016; Some 1024]).
Proof.
  intros ram0. split; vm_compute; reflexivity.
Qed.

(** C5 (code_bug).  On the 64-byte buffer: allocate 8 bytes three times and
    release the three pointers in the order of allocation.  After the last
    release the block list starts with three free blocks in a row (1000,
    1016, 1024).  The second release merged block 1008 into block 1000, but
    the [prev] field of block 1016 still leads to the absorbed header at
    1008, so the third release merges into that stale header instead of
    block 1000. *)
Theorem adjacent_free_after_release : forall ram0 : memory,
  observe (fun a => (layout a, free_pair a 1000, free_pair a 1016, adjacent_free a))
          (run (buf64 ram0) []
               [Alloc 8; Alloc 8; Alloc 8; Free 0%nat; Free 1%nat; Free 2%nat])
  = Ok (([(1000, 16, true, 0); (1016, 8, true, 8); (1024, 8, true, 8);
          (1032, 0, true, 0)], true, true, true),
        [Some 1008; Some 1016; Some 1024]).
Proof.
  intros ram0. vm_compute. reflexivity.
Qed.

(** C6 (code_bug).  Allocating 8 bytes from the fresh 64-byte buffer splits
    the block of payload 56: the block keeps payload 8, the caller gets
    1008, and the new free header (payload 40, prev 8) is written at 1008
    as well, the first byte of the caller's payload.  Immediately after the
    shrunk block, at 1000 + 8 + 8 = 1016, nothing is written. *)
Theorem split_header_inside_payload : forall ram0 : memory,
  observe (fun a => (layout a, get_next a 1000,
                     (size_flags a 1016, prev a 1016)))
          (run (buf64 ram0) [] [Alloc 8])
  = Ok (([(1000, 8, false, 0); (1008, 40, true, 8); (1048, 0, true, 0)],
         Some 1008, (0, 0)),
        [Some 1008]).
Proof.
  intros ram0. vm_compute. reflexivity.
Qed.

(** C8 (code_bug).  The fresh 64-byte buffer reports 8 occupied bytes.
    Allocating 56 bytes succeeds (pointer 1008, no split, counter 64);
    releasing the pointer at once leaves the counter at 0, not at 8: the
    next-block lookup finds a zero-filled "block" 56 bytes after the start,
    inside the released payload, and the merge with it takes one footprint
    off the counter. *)
Theorem round_trip_loses_footprint : forall ram0 : memory,
  occupied_bytes (buf64 ram0) = 8 /\
  observe occupied_bytes (run (buf64 ram0) [] [Alloc 56]) = Ok (64, [Some 1008]) /\
  observe occupied_bytes (run (buf64 ram0) [] [Alloc 56; Free 0%nat])
  = Ok (0, [Some 1008]).
Proof.
  intros ram0. repeat split; vm_compute; reflexivity.
Qed.

(** C9 (code_bug).  A request of 4294967295 bytes with alignment 8 is not
    rounded up: the sum wraps to 0.  With a rounded request of 0 every free
    block qualifies, so on a 16-byte buffer the request is answered with
    the 8-byte payload at 1008, and on the 64-byte buffer the split that
    follows stores through the null pointer [get_next] returns for a block
    of size 0. *)
Theorem alloc_rounding_wraps : forall ram0 : memory,
  align_num_bytes (buf16 ram0) 4294967295 = 0 /\
  observe layout (run (buf16 ram0) [] [Alloc 4294967295])
  = Ok ([(1000, 8, false, 0); (1008, 0, true, 0)], [Some 1008]) /\
  observe layout (run (buf64 ram0) [] [Alloc 4294967295]) = Err NullDeref.
Proof.
  intros ram0. repeat split; vm_compute; reflexivity.
Qed.

(** ** Releasing a pointer whose header address is out of range *)

(** C7 (corrected).  When the header address [mem - header_footprint] lies
    outside [m_mem, m_mem + m_size), [free] returns the state it was
    given: no byte of memory and no counter changes. *)
Theorem free_header_out_of_range (a : allocator) (mem : Z)
  (Hout : mem - m_block_alignment a < m_mem a \/
          m_mem a + m_size a <= mem - m_block_alignment a) :
  free a mem = a.
Proof.
  unfold free.
  destruct (mem - m_block_alignment a >=? m_mem a + m_size a) eqn:Hhi;
    [reflexivity|].
  destruct (mem - m_block_alignment a <? m_mem a) eqn:Hlo; [reflexivity|].
  lia.
Qed.

(** The pointer one footprint past the end of the 64-byte buffer. *)
Lemma free_header_out_of_range_witness :
  let a := buf64 (fun _ => 0) in
  (1072 - m_block_alignment a < m_mem a \/
   m_mem a + m_size a <= 1072 - m_block_alignment a) /\
  free a 1072 = a.
Proof.
  intros a.
  assert (H : 1072 - m_block_alignment a < m_mem a \/
              m_mem a + m_size a <= 1072 - m_block_alignment a).
  { right. vm_compute. discriminate. }
  split; [exact H | exact (free_header_out_of_range a 1072 H)].
Defined.

(** C7, as stated, fails for pointers in the footprint just past the end
    of the buffer.  On a 9-byte buffer with alignment 1, after [alloc(1)],
    the pointer 1009 = m_mem + m_size is outside the buffer, yet its header
    address 1001 is inside: [free(1009)] reads a header out of bytes 1..8
    of the buffer and changes the counter. *)
Lemma free_past_end_changes_counter :
  match run (buf9 (fun _ => 0)) [] [Alloc 1] with
  | Ok (a, _) =>
      (1009 < m_mem a \/ m_mem a + m_size a <= 1009) /\
      occupied_bytes (free a 1009) <> occupied_bytes a
  | Err _ => False
  end.
Proof.
  vm_compute. split; [right|]; discriminate.
Qed.

(** ** Zero-size blocks *)

(** C10 (confirmed).  A block of payload size 0 has no next block, wherever
    it lies, also strictly inside the buffer: [get_next] is null, so the
    block list ends with it, the loop of [alloc] never goes past it (it
    answers that block if it fits, which takes a rounded request of 0, and
    "no allocation" otherwise), and the forward merge of [free] does
    nothing. *)
Theorem zero_size_block_ends_list (a : allocator) (b : Z)
  (Hzero : get_size a b = 0) :
  get_next a b = None /\
  (forall fuel : nat, blocks (S fuel) a (Some b) = [b]) /\
  (forall (fuel : nat) (num_bytes : Z),
      scan (S fuel) a num_bytes (Some b)
      = Ok (if fits a num_bytes b then Some b else None)) /\
  (forall (fuel : nat) (num_bytes : Z),
      0 < num_bytes -> scan (S fuel) a num_bytes (Some b) = Ok None) /\
  (forall remove_block : bool,
      coalesce_next a b remove_block = (a, remove_block)).
Proof.
  assert (Hnext : get_next a b = None).
  { apply get_next_None. right. lia. }
  assert (Hscan : forall (fuel : nat) (num_bytes : Z),
             scan (S fuel) a num_bytes (Some b)
             = Ok (if fits a num_bytes b then Some b else None)).
  { intros fuel num_bytes. cbn [scan]. rewrite skip_fits, Hnext.
    destruct (fits a num_bytes b); cbn [negb]; [reflexivity|].
    destruct fuel; reflexivity. }
  split; [exact Hnext|]. split; [|split; [exact Hscan|split]].
  - intros fuel. cbn [blocks]. rewrite Hnext, blocks_None. reflexivity.
  - intros fuel num_bytes Hpos. rewrite Hscan.
    unfold fits. rewrite Hzero.
    replace (num_bytes <=? 0) with false by (symmetry; apply Z.leb_gt; exact Hpos).
    rewrite andb_false_r. reflexivity.
  - intros remove_block. unfold coalesce_next. rewrite Hnext. reflexivity.
Qed.

(** The zero-filled header at 1056 of the fresh 64-byte buffer: the address
    [b + get_size b] is 1056 itself, inside the buffer [1000, 1064). *)
Lemma zero_size_block_ends_list_witness :
  let a := buf64 (fun _ => 0) in
  get_size a 1056 = 0 /\
  (m_mem a <= 1056 + get_size a 1056 < m_mem a + m_size a) /\
  get_next a 1056 = None /\
  (forall fuel : nat, blocks (S fuel) a (Some 1056) = [1056]) /\
  (forall (fuel : nat) (num_bytes : Z),
      scan (S fuel) a num_bytes (Some 1056)
      = Ok (if fits a num_bytes 1056 then Some 1056 else None)) /\
  (forall (fuel : nat) (num_bytes : Z),
      0 < num_bytes -> scan (S fuel) a num_bytes (Some 1056) = Ok None) /\
  (forall remove_block : bool,
      coalesce_next a 1056 remove_block = (a, remove_block)).
Proof.
  intros a.
  assert (Hzero : get_size a 1056 = 0) by (vm_compute; reflexivity).
  split; [exact Hzero|]. split.
  - vm_compute. split; [discriminate | reflexivity].
  - exact (zero_size_block_ends_list a 1056 Hzero).
Defined.

(** * Further properties of the code *)

(** ** Rounding *)

(** X1.  [align_num_bytes] rounds up to a multiple of the alignment: for
    an alignment above 0 and a request that leaves room for one more
    alignment unit below 2^32, the result is the least multiple of the
    alignment that is not below the request; an aligned request comes back
    unchanged. *)
Theorem align_num_bytes_least_multiple (a : allocator) (n : Z)
  (Halign : 0 < m_align_bytes a) (Hn : 0 <= n)
  (Hfit : n + m_align_bytes a <= 2 ^ 32) :
  align_num_bytes a n mod m_align_bytes a = 0 /\
  n <= align_num_bytes a n /\
  (forall k : Z, k mod m_align_bytes a = 0 -> n <= k -> align_num_bytes a n <= k) /\
  (n mod m_align_bytes a = 0 -> align_num_bytes a n = n).
Proof.
  destruct (align_num_bytes_round_up a n Halign Hn Hfit) as ((Hle & Hlt) & Hmul).
  assert (Hleast : forall k : Z,
             k mod m_align_bytes a = 0 -> n <= k -> align_num_bytes a n <= k).
  { intros k Hk Hnk.
    apply Z.mod_divide in Hk; [|lia]. destruct Hk as (j & ->).
    apply Z.mod_divide in Hmul; [|lia]. destruct Hmul as (i & Hi).
    rewrite Hi in *.
    destruct (Z.le_gt_cases i j) as [Hij|Hij].
    - apply Z.mul_le_mono_nonneg_r; lia.
    - exfalso.
      assert ((j + 1) * m_align_bytes a <= i * m_align_bytes a)
        by (apply Z.mul_le_mono_nonneg_r; lia).
      lia. }
  repeat split; try assumption.
  intros Hn0. apply Z.le_antisymm; [|exact Hle].
  apply Hleast; [exact Hn0 | lia].
Qed.

Lemma align_num_bytes_least_multiple_witness :
  let a := buf64 (fun _ => 0) in
  align_num_bytes a 13 mod m_align_bytes a = 0 /\
  13 <= align_num_bytes a 13 /\
  (forall k : Z, k mod m_align_bytes a = 0 -> 13 <= k -> align_num_bytes a 13 <= k) /\
  (13 mod m_align_bytes a = 0 -> align_num_bytes a 13 = 13).
Proof.
  intros a.
  apply (align_num_bytes_least_multiple a 13); vm_compute; congruence.
Defined.

(** ** Header encoding *)

(** X2.  [get_size] after [set_size] gives the size written, reduced to
    the 31 bits of the field (a size of 2^31 or more loses its high bit);
    the free flag and [prev] of the block stay as they were. *)
Theorem size_field_round_trip (a : allocator) (b size : Z) :
  get_size (set_size a b size) b = size mod 2 ^ 31 /\
  is_free (set_size a b size) b = is_free a b /\
  prev (set_size a b size) b = prev a b.
Proof.
  split; [apply get_size_set_size|]. split; [apply is_free_set_size|].
  unfold prev, set_size, set_size_flags. cbn.
  apply load32_store32_other. lia.
Qed.

(** X3.  [set_free] and [set_occupied] set the flag they name and leave
    the size and [prev] of the block as they were. *)
Theorem flag_setters (a : allocator) (b : Z) :
  (is_free (set_free a b) b = true /\
   get_size (set_free a b) b = get_size a b /\
   prev (set_free a b) b = prev a b) /\
  (is_occupied (set_occupied a b) b = true /\
   is_free (set_occupied a b) b = false /\
   get_size (set_occupied a b) b = get_size a b /\
   prev (set_occupied a b) b = prev a b).
Proof.
  assert (Hprev : forall v, prev (set_size_flags a b v) b = prev a b).
  { intros v. unfold prev, set_size_flags. cbn.
    apply load32_store32_other. lia. }
  repeat split.
  - apply is_free_set_free.
  - apply get_size_set_free.
  - apply Hprev.
  - apply is_occupied_set_occupied.
  - pose proof (is_occupied_set_occupied a b) as H.
    rewrite is_occupied_is_free in H. destruct (is_free _ _); [discriminate|reflexivity].
  - apply get_size_set_occupied.
  - apply Hprev.
Qed.

Lemma prev_set_size_flags (a : allocator) (b v x : Z) :
  x + 8 <= b \/ b <= x -> prev (set_size_flags a b v) x = prev a x.
Proof.
  intros H. unfold prev, set_size_flags. cbn.
  apply load32_store32_other. lia.
Qed.

Lemma prev_set_prev_other (a : allocator) (b v x : Z) :
  x + 4 <= b \/ b + 4 <= x -> prev (set_prev a b v) x = prev a x.
Proof.
  intros H. unfold prev, set_prev. cbn.
  apply load32_store32_other. lia.
Qed.

(** X4.  Writing a field of the header at [b] leaves the header of a block
    that starts at least 8 bytes away, on either side, as it was: its
    size_flags word, [prev], size and free flag. *)
Theorem setters_leave_other_headers (a : allocator) (b x v : Z)
  (Hapart : x + 8 <= b \/ b + 8 <= x) :
  let same (a' : allocator) :=
    size_flags a' x = size_flags a x /\ prev a' x = prev a x /\
    get_size a' x = get_size a x /\ is_free a' x = is_free a x in
  same (set_free a b) /\ same (set_occupied a b) /\
  same (set_size a b v) /\ same (set_prev a b v).
Proof.
  intros same.
  assert (Hflags : forall w, same (set_size_flags a b w)).
  { intros w.
    assert (Hsf : size_flags (set_size_flags a b w) x = size_flags a x)
      by (apply size_flags_set_other; lia).
    unfold same. split; [exact Hsf|]. split.
    - apply prev_set_size_flags. lia.
    - split; [apply get_size_ext | apply is_free_ext]; exact Hsf. }
  split; [apply Hflags|]. split; [apply Hflags|]. split; [apply Hflags|].
  assert (Hsf : size_flags (set_prev a b v) x = size_flags a x)
    by (apply size_flags_set_prev; lia).
  unfold same. split; [exact Hsf|]. split.
  - apply prev_set_prev_other. lia.
  - split; [apply get_size_ext | apply is_free_ext]; exact Hsf.
Qed.

Lemma setters_leave_other_headers_witness :
  let a := buf64 (fun _ => 0) in
  (1000 + 8 <= 1008 \/ 1008 + 8 <= 1000) /\
  (size_flags (set_size a 1008 24) 1000 = size_flags a 1000 /\
   prev (set_size a 1008 24) 1000 = prev a 1000 /\
   get_size (set_size a 1008 24) 1000 = get_size a 1000 /\
   is_free (set_size a 1008 24) 1000 = is_free a 1000).
Proof.
  intros a.
  assert (H : 1000 + 8 <= 1008 \/ 1008 + 8 <= 1000) by (left; lia).
  split; [exact H|].
  exact (proj1 (proj2 (proj2 (setters_leave_other_headers a 1008 1000 24 H)))).
Defined.

(** ** The block list *)

Lemma blocks_bounds (a : allocator) :
  forall (fuel : nat) (b x : Z),
    In x (blocks fuel a (Some b)) ->
    x = b \/ (b < x < m_mem a + m_size a).
Proof.
  induction fuel as [|fuel IH]; intros b x Hin; cbn [blocks] in Hin; [destruct Hin|].
  destruct Hin as [<-|Hin]; [left; reflexivity|].
  destruct (get_next a b) as [p|] eqn:Hnext.
  - apply get_next_Some in Hnext. destruct Hnext as (Hp & Hlt & Hsz).
    apply IH in Hin. right. lia.
  - rewrite blocks_None in Hin. destruct Hin.
Qed.

Lemma blocks_length (a : allocator) :
  forall (fuel : nat) (ob : option Z), (length (blocks fuel a ob) <= fuel)%nat.
Proof.
  induction fuel as [|fuel IH]; intros [b|]; cbn [blocks length]; try lia.
  specialize (IH (get_next a b)). lia.
Qed.

Lemma blocks_consecutive (a : allocator) :
  forall (fuel : nat) (b : Z) (l1 l2 : list Z) (x y : Z),
    blocks fuel a (Some b) = l1 ++ x :: y :: l2 -> get_next a x = Some y.
Proof.
  induction fuel as [|fuel IH]; intros b l1 l2 x y H; cbn [blocks] in H.
  - destruct l1; discriminate.
  - destruct (get_next a b) as [p|] eqn:Hnext.
    + destruct l1 as [|z l1]; cbn in H.
      * injection H as <- H. apply blocks_head in H as Hy. subst y. exact Hnext.
      * injection H as _ H. eapply IH. exact H.
    + rewrite blocks_None in H. destruct l1 as [|z [|z' l1]]; discriminate.
Qed.

Lemma all_blocks_cons (a : allocator) :
  exists l, all_blocks a = m_mem a :: l /\
            Forall (fun x => m_mem a < x < m_mem a + m_size a) l.
Proof.
  unfold all_blocks, scan_budget. cbn [blocks]. eexists. split; [reflexivity|].
  apply Forall_forall. intros x Hin.
  destruct (get_next a (m_mem a)) as [p|] eqn:Hnext.
  - apply get_next_Some in Hnext. destruct Hnext as (Hp & Hlt & Hsz).
    apply blocks_bounds in Hin. lia.
  - rewrite blocks_None in Hin. destruct Hin.
Qed.

Lemma all_blocks_ge (a : allocator) (b : Z) :
  In b (all_blocks a) -> m_mem a <= b.
Proof.
  destruct (all_blocks_cons a) as (l & Hl & Hall).
  rewrite Hl. intros [<-|Hin]; [lia|].
  rewrite Forall_forall in Hall. apply Hall in Hin. lia.
Qed.

(** X5.  The walk by [get_next] from the first block: it starts at
    [m_mem], every further block lies strictly inside the buffer, addresses
    strictly increase, consecutive entries are linked by [get_next], the
    last entry has no next block, and the walk has at most [m_size + 1]
    entries. *)
Theorem all_blocks_walk (a : allocator) :
  (exists l, all_blocks a = m_mem a :: l /\
             Forall (fun x => m_mem a < x < m_mem a + m_size a) l) /\
  Sorted Z.lt (all_blocks a) /\
  (forall l1 l2 x y, all_blocks a = l1 ++ x :: y :: l2 -> get_next a x = Some y) /\
  (forall l1 x, all_blocks a = l1 ++ [x] -> get_next a x = None) /\
  (length (all_blocks a) <= scan_budget a)%nat.
Proof.
  split; [|split; [|split; [|split]]].
  - apply all_blocks_cons.
  - apply all_blocks_sorted.
  - intros l1 l2 x y H. eapply blocks_consecutive. exact H.
  - intros l1 x H.
    destruct (get_next a x) as [y|] eqn:Hnext; [|reflexivity]. exfalso.
    (* one more step of fuel would list y, but the list is stable *)
    assert (Hst : blocks (S (scan_budget a)) a (Some (m_mem a)) = all_blocks a).
    { apply blocks_stable; unfold scan_budget; lia. }
    assert (Hext : forall fuel b l1 x,
               blocks fuel a (Some b) = l1 ++ [x] ->
               get_next a x = Some y ->
               exists l, blocks (S fuel) a (Some b) = l1 ++ x :: y :: l).
    { induction fuel as [|fuel IH]; intros b0 l0 x0 Hl Hn.
      - destruct l0; discriminate.
      - cbn [blocks] in Hl. destruct l0 as [|z l0]; cbn in Hl.
        + injection Hl as <- _.
          exists (blocks fuel a (get_next a y)).
          cbn [blocks app]. rewrite Hn. reflexivity.
        + injection Hl as Hz Hl. subst z.
          destruct (get_next a b0) as [q|] eqn:Hq.
          * destruct (IH q l0 x0 Hl Hn) as (l & Hl').
            exists l. change (blocks (S (S fuel)) a (Some b0))
              with (b0 :: blocks (S fuel) a (get_next a b0)).
            rewrite Hq, Hl'. reflexivity.
          * rewrite blocks_None in Hl. destruct l0; discriminate. }
    destruct (Hext _ _ _ _ H Hnext) as (l & Hl).
    rewrite Hst, H in Hl.
    apply (f_equal (@length Z)) in Hl. rewrite !length_app in Hl. cbn in Hl. lia.
  - apply blocks_length.
Qed.

(** ** alloc *)

Lemma find_split {A : Type} (f : A -> bool) :
  forall (l : list A) (x : A),
    find f l = Some x ->
    exists l1 l2, l = l1 ++ x :: l2 /\ f x = true /\
                  Forall (fun y => f y = false) l1.
Proof.
  induction l as [|y l IH]; intros x H; cbn in H; [discriminate|].
  destruct (f y) eqn:Hy.
  - injection H as <-. exists [], l. repeat split; [exact Hy | constructor].
  - destruct (IH x H) as (l1 & l2 & -> & Hx & Hall).
    exists (y :: l1), l2. repeat split; [exact Hx | constructor; assumption].
Qed.

Lemma find_none_all {A : Type} (f : A -> bool) (l : list A) :
  find f l = None <-> Forall (fun y => f y = false) l.
Proof.
  split.
  - intros H. apply Forall_forall. intros x Hin.
    destruct (f x) eqn:Hx; [|reflexivity].
    exfalso. eapply find_none in H; [|exact Hin]. congruence.
  - induction 1 as [|y l Hy _ IH]; cbn; [reflexivity|]. rewrite Hy. exact IH.
Qed.

Lemma sorted_before (l1 l2 : list Z) (x y : Z) :
  Sorted Z.lt (l1 ++ x :: l2) -> In y (l1 ++ x :: l2) -> y < x -> In y l1.
Proof.
  intros Hs Hin Hlt.
  apply Sorted_StronglySorted in Hs; [|intros u v w; lia].
  induction l1 as [|z l1 IH]; cbn in *.
  - apply StronglySorted_inv in Hs. destruct Hs as (_ & Hall).
    destruct Hin as [->|Hin]; [lia|].
    rewrite Forall_forall in Hall. apply Hall in Hin. lia.
  - apply StronglySorted_inv in Hs. destruct Hs as (Hs & _).
    destruct Hin as [->|Hin]; [left; reflexivity|].
    right. apply IH; assumption.
Qed.

(** X6.  A call of [alloc] that returns null, for a request of 0 bytes or
    because no block fits, leaves the allocator and the memory exactly as
    they were. *)
Theorem alloc_null_unchanged (a a' : allocator) (n : Z)
  (Hnull : alloc a n = Ok (a', None)) :
  a' = a.
Proof.
  unfold alloc in Hnull. destruct (n =? 0).
  - injection Hnull as <-. reflexivity.
  - rewrite scan_first_fit in Hnull.
    destruct (find _ _) as [b|].
    + apply take_block_pointer in Hnull. discriminate.
    + injection Hnull as <-. reflexivity.
Qed.

Lemma alloc_null_unchanged_witness :
  let a := buf64 (fun _ => 0) in
  alloc a 100 = Ok (a, None) /\ a = a.
Proof.
  intros a.
  assert (H : alloc a 100 = Ok (a, None)) by (vm_compute; reflexivity).
  split; [exact H | exact (alloc_null_unchanged a a 100 H)].
Defined.

Lemma alloc_inv (a a' : allocator) (n p : Z) :
  alloc a n = Ok (a', Some p) ->
  n <> 0 /\
  find (fits a (align_num_bytes a n)) (all_blocks a)
  = Some (p - m_block_alignment a) /\
  take_block a (align_num_bytes a n) (p - m_block_alignment a)
  = Ok (a', Some p).
Proof.
  intros H.
  assert (Hn : n <> 0).
  { intros ->. cbn in H. discriminate. }
  split; [exact Hn|].
  rewrite (alloc_first_fit a n Hn) in H.
  destruct (find _ _) as [b|]; [|discriminate].
  pose proof (take_block_pointer _ _ _ _ _ H) as Hp. injection Hp as ->.
  replace (b + m_block_alignment a - m_block_alignment a) with b by lia.
  split; [reflexivity | exact H].
Qed.

(** X7.  First fit, for the value [align_num_bytes] returns: [alloc]
    returns null exactly when no block of the walk is free with a payload
    of at least the rounded request; a pointer it returns is one header
    footprint past a block of the walk that is free and large enough,
    and no block at a lower address is. *)
Theorem alloc_selects_first_fit (a : allocator) (n : Z) (Hn : n <> 0) :
  let R := align_num_bytes a n in
  (Forall (fun b => fits a R b = false) (all_blocks a) ->
   alloc a n = Ok (a, None)) /\
  (forall a', alloc a n = Ok (a', None) ->
              Forall (fun b => fits a R b = false) (all_blocks a)) /\
  (forall a' p,
      alloc a n = Ok (a', Some p) ->
      exists b,
        p = b + m_block_alignment a /\
        In b (all_blocks a) /\
        is_free a b = true /\ R <= get_size a b /\
        forall b', In b' (all_blocks a) -> b' < b -> fits a R b' = false).
Proof.
  intros R. rewrite (alloc_first_fit a n Hn). fold R.
  split; [|split].
  - intros Hall. apply find_none_all in Hall. rewrite Hall. reflexivity.
  - intros a' H. destruct (find _ _) as [b|] eqn:Hfind.
    + apply take_block_pointer in H. discriminate.
    + apply find_none_all. exact Hfind.
  - intros a' p H. destruct (find _ _) as [b|] eqn:Hfind; [|discriminate].
    apply take_block_pointer in H. injection H as ->.
    apply find_split in Hfind. destruct Hfind as (l1 & l2 & Hl & Hfit & Hbefore).
    exists b. split; [reflexivity|]. split.
    { rewrite Hl. apply in_elt. }
    unfold fits in Hfit. apply andb_true_iff in Hfit. destruct Hfit as (Hfree & Hsz).
    split; [exact Hfree|]. split; [apply Z.leb_le; exact Hsz|].
    intros b' Hin Hlt.
    pose proof (all_blocks_sorted a) as Hs. rewrite Hl in Hs, Hin.
    rewrite Forall_forall in Hbefore. apply Hbefore.
    eapply sorted_before; eassumption.
Qed.

Lemma alloc_selects_first_fit_witness :
  let a := buf64 (fun _ => 0) in
  8 <> 0 /\
  forall a' p,
    alloc a 8 = Ok (a', Some p) ->
    exists b,
      p = b + m_block_alignment a /\
      In b (all_blocks a) /\
      is_free a b = true /\ align_num_bytes a 8 <= get_size a b /\
      forall b', In b' (all_blocks a) -> b' < b ->
                 fits a (align_num_bytes a 8) b' = false.
Proof.
  intros a.
  assert (H : 8 <> 0) by discriminate.
  split; [exact H|].
  exact (proj2 (proj2 (alloc_selects_first_fit a 8 H))).
Defined.

Lemma take_block_config (a a' : allocator) (R b : Z) (p : option Z) :
  take_block a R b = Ok (a', p) ->
  m_mem a' = m_mem a /\ m_size a' = m_size a /\
  m_align_bytes a' = m_align_bytes a /\
  m_block_alignment a' = m_block_alignment a.
Proof.
  unfold take_block. destruct (_ >=? _).
  - destruct (get_next _ _); [|discriminate].
    intros H. injection H as <- _. repeat split.
  - intros H. injection H as <- _. repeat split.
Qed.

Lemma fits_size (a : allocator) (R b : Z) :
  fits a R b = true -> is_free a b = true /\ R <= get_size a b < 2 ^ 31.
Proof.
  unfold fits. intros H. apply andb_true_iff in H. destruct H as (Hf & Hs).
  apply Z.leb_le in Hs. pose proof (get_size_bound a b). split; [exact Hf|lia].
Qed.

(** The two outcomes of lines 92-104 for a block that fits. *)
Lemma take_block_inv (a a' : allocator) (R b : Z) (p : option Z) :
  fits a R b = true -> 4 <= R ->
  take_block a R b = Ok (a', p) ->
  p = Some (b + m_block_alignment a) /\
  is_occupied a' b = true /\
  ((get_size a b < u32 (R + m_align_bytes a + m_block_alignment a) /\
    get_size a' b = get_size a b /\
    m_occupied a' = u32 (m_occupied a + get_size a b))
   \/
   (u32 (R + m_align_bytes a + m_block_alignment a) <= get_size a b /\
    b + R < m_mem a + m_size a /\
    get_size a' b = R /\
    get_next a' b = Some (b + R) /\
    is_free a' (b + R) = true /\
    get_size a' (b + R)
    = u32 (get_size a b - R - m_block_alignment a) mod 2 ^ 31 /\
    prev a' (b + R) = R /\
    m_occupied a' = u32 (m_occupied a + m_block_alignment a + R))).
Proof.
  intros Hfit HR Htake.
  apply fits_size in Hfit. destruct Hfit as (Hfree & Hsz).
  split; [eapply take_block_pointer; exact Htake|].
  destruct (Z.lt_ge_cases (get_size a b)
              (u32 (R + m_align_bytes a + m_block_alignment a))) as [Hsmall|Hbig].
  - rewrite (take_block_whole a R b Hsmall) in Htake. injection Htake as <- _.
    split.
    + rewrite is_occupied_is_free.
      change (negb (is_free (set_occupied a b) b) = true).
      rewrite <- is_occupied_is_free. apply is_occupied_set_occupied.
    + left. split; [exact Hsmall|]. split; [|reflexivity].
      change (get_size (set_occupied a b) b = get_size a b).
      apply get_size_set_occupied.
  - assert (Hin : b + R < m_mem a + m_size a).
    { unfold take_block in Htake. rewrite get_size_set_occupied in Htake.
      cbn [m_align_bytes m_block_alignment set_occupied set_size_flags with_ram]
        in Htake.
      fold (set_size_flags a b (Z.lor (size_flags a b) FLAG_MASK)) in Htake.
      fold (set_occupied a b) in Htake.
      destruct (Z.geb_spec (get_size a b)
                  (u32 (R + m_align_bytes a + m_block_alignment a))); [|lia].
      destruct (get_next (set_size (set_occupied a b) b R) b) as [q|] eqn:Hq;
        [|discriminate].
      apply get_next_Some in Hq. rewrite get_size_set_size in Hq.
      rewrite Z.mod_small in Hq by lia. cbn in Hq. lia. }
    destruct (take_block_split a R b Hbig ltac:(lia) Hin)
      as (a'' & Heq & H1 & H2 & H3 & H4 & H5 & H6 & H7).
    rewrite Heq in Htake. injection Htake as <- _.
    split; [exact H2|]. right. repeat split; assumption.
Qed.

(** X8.  A successful [alloc] with a rounded request of at least 4 bytes:
    the block behind the returned pointer was free and is now occupied, its
    recorded payload is at least the rounded request and at most what it
    was; either the block kept its size and the counter grew by it, or the
    block was cut to the rounded request and the counter grew by that plus
    one header footprint. *)
Theorem alloc_grants_block (a a' : allocator) (n p : Z)
  (Halloc : alloc a n = Ok (a', Some p))
  (HR : 4 <= align_num_bytes a n) :
  let R := align_num_bytes a n in
  let b := p - m_block_alignment a in
  In b (all_blocks a) /\
  is_free a b = true /\ is_occupied a' b = true /\
  R <= get_size a' b <= get_size a b /\
  ((get_size a' b = get_size a b /\
    occupied_bytes a' = u32 (occupied_bytes a + get_size a b))
   \/
   (get_size a' b = R /\
    occupied_bytes a' = u32 (occupied_bytes a + m_block_alignment a + R))).
Proof.
  intros R b.
  destruct (alloc_inv a a' n p Halloc) as (Hn & Hfind & Htake).
  fold R b in Hfind, Htake.
  assert (Hfit : fits a R b = true) by (eapply find_some; exact Hfind).
  assert (Hin : In b (all_blocks a)) by (eapply find_some; exact Hfind).
  pose proof (fits_size a R b Hfit) as (Hfree & Hsz).
  destruct (take_block_inv a a' R b (Some p) Hfit HR Htake)
    as (_ & Hocc & [(Hsmall & Hs & Hc)|(Hbig & Hend & Hs & _ & _ & _ & _ & Hc)]).
  - repeat split; try assumption; try lia. left. split; assumption.
  - repeat split; try assumption; try lia. right. split; assumption.
Qed.

Lemma alloc_grants_block_witness :
  match alloc (buf64 (fun _ => 0)) 8 with
  | Ok (a', Some p) =>
      let a := buf64 (fun _ => 0) in
      let R := align_num_bytes a 8 in
      let b := p - m_block_alignment a in
      In b (all_blocks a) /\
      is_free a b = true /\ is_occupied a' b = true /\
      R <= get_size a' b <= get_size a b /\
      ((get_size a' b = get_size a b /\
        occupied_bytes a' = u32 (occupied_bytes a + get_size a b))
       \/
       (get_size a' b = R /\
        occupied_bytes a' = u32 (occupied_bytes a + m_block_alignment a + R)))
  | _ => False
  end.
Proof.
  destruct (alloc (buf64 (fun _ => 0)) 8) as [[a' [p|]]|e] eqn:Halloc.
  - apply (alloc_grants_block _ _ _ _ Halloc). vm_compute. discriminate.
  - vm_compute in Halloc. discriminate.
  - vm_compute in Halloc. discriminate.
Defined.

Lemma alloc_config (a a' : allocator) (n : Z) (p : option Z) :
  alloc a n = Ok (a', p) ->
  m_mem a' = m_mem a /\ m_size a' = m_size a /\
  m_align_bytes a' = m_align_bytes a /\
  m_block_alignment a' = m_block_alignment a.
Proof.
  unfold alloc. destruct (n =? 0).
  - intros H. injection H as <- _. repeat split.
  - rewrite scan_first_fit. destruct (find _ _) as [b|].
    + apply take_block_config.
    + intros H. injection H as <- _. repeat split.
Qed.

Lemma coalesce_prev_config (a : allocator) (b : Z) (rb : bool) :
  let a' := fst (fst (coalesce_prev a b rb)) in
  m_mem a' = m_mem a /\ m_size a' = m_size a /\
  m_align_bytes a' = m_align_bytes a /\
  m_block_alignment a' = m_block_alignment a.
Proof.
  unfold coalesce_prev. destruct (get_prev a b) as [p|]; [|repeat split].
  destruct (is_free a p); repeat split.
Qed.

Lemma coalesce_next_config (a : allocator) (b : Z) (rb : bool) :
  let a' := fst (coalesce_next a b rb) in
  m_mem a' = m_mem a /\ m_size a' = m_size a /\
  m_align_bytes a' = m_align_bytes a /\
  m_block_alignment a' = m_block_alignment a.
Proof.
  unfold coalesce_next. destruct (get_next a b) as [n|]; [|repeat split].
  destruct (is_free a n); repeat split.
Qed.

Lemma free_config (a : allocator) (mem : Z) :
  m_mem (free a mem) = m_mem a /\ m_size (free a mem) = m_size a /\
  m_align_bytes (free a mem) = m_align_bytes a /\
  m_block_alignment (free a mem) = m_block_alignment a.
Proof.
  unfold free.
  destruct (_ || _); [repeat split|].
  set (a1 := with_occupied _ _).
  pose proof (coalesce_prev_config a1 (mem - m_block_alignment a) false) as H2.
  destruct (coalesce_prev a1 _ false) as [[a2 b2] r1].
  pose proof (coalesce_next_config a2 b2 r1) as H3.
  destruct (coalesce_next a2 b2 r1) as [a3 r].
  cbn [fst] in H2, H3. cbv zeta in H2, H3.
  assert (H1 : m_mem a1 = m_mem a /\ m_size a1 = m_size a /\
               m_align_bytes a1 = m_align_bytes a /\
               m_block_alignment a1 = m_block_alignment a) by (repeat split).
  destruct H1 as (J1 & J2 & J3 & J4).
  destruct H2 as (K1 & K2 & K3 & K4), H3 as (L1 & L2 & L3 & L4).
  destruct r; cbn; repeat split; congruence.
Qed.

(** X9.  No sequence of [alloc] and [free] calls changes the buffer
    address, [total_bytes], the alignment or the header footprint. *)
Theorem run_preserves_configuration :
  forall (cs : list call) (a a' : allocator) (ps ps' : list (option Z)),
    run a ps cs = Ok (a', ps') ->
    m_mem a' = m_mem a /\ total_bytes a' = total_bytes a /\
    m_align_bytes a' = m_align_bytes a /\
    m_block_alignment a' = m_block_alignment a.
Proof.
  unfold total_bytes.
  induction cs as [|c cs IH]; intros a a' ps ps' H; cbn [run] in H.
  - injection H as <- _. repeat split.
  - destruct c as [n|i|mem].
    + destruct (alloc a n) as [[a1 p]|e] eqn:Halloc; [|discriminate].
      apply IH in H. apply alloc_config in Halloc.
      destruct H as (H1 & H2 & H3 & H4), Halloc as (K1 & K2 & K3 & K4).
      repeat split; congruence.
    + apply IH in H. pose proof (free_config a (addr_of (nth i ps None)))
        as (K1 & K2 & K3 & K4).
      destruct H as (H1 & H2 & H3 & H4). repeat split; congruence.
    + apply IH in H. pose proof (free_config a mem) as (K1 & K2 & K3 & K4).
      destruct H as (H1 & H2 & H3 & H4). repeat split; congruence.
Qed.

Lemma run_preserves_configuration_witness :
  match run (buf64 (fun _ => 0)) [] [Alloc 8; Alloc 16; Free 0%nat; FreeAt 5] with
  | Ok (a', _) =>
      let a := buf64 (fun _ => 0) in
      m_mem a' = m_mem a /\ total_bytes a' = total_bytes a /\
      m_align_bytes a' = m_align_bytes a /\
      m_block_alignment a' = m_block_alignment a
  | Err _ => False
  end.
Proof.
  destruct (run (buf64 (fun _ => 0)) [] [Alloc 8; Alloc 16; Free 0%nat; FreeAt 5])
    as [[a' ps']|e] eqn:Hrun.
  - exact (run_preserves_configuration _ _ _ _ _ Hrun).
  - vm_compute in Hrun. discriminate.
Defined.

(** X10.  Two successful calls of [alloc] in a row return different
    pointers: the block of the first call is occupied when the second call
    scans. *)
Theorem alloc_twice_distinct (a a1 a2 : allocator) (n1 n2 p1 p2 : Z)
  (H1 : alloc a n1 = Ok (a1, Some p1))
  (HR : 4 <= align_num_bytes a n1)
  (H2 : alloc a1 n2 = Ok (a2, Some p2)) :
  p1 <> p2.
Proof.
  destruct (alloc_inv a a1 n1 p1 H1) as (_ & Hfind1 & Htake1).
  assert (Hfit1 : fits a (align_num_bytes a n1) (p1 - m_block_alignment a) = true)
    by (eapply find_some; exact Hfind1).
  destruct (take_block_inv _ _ _ _ _ Hfit1 HR Htake1) as (_ & Hocc & _).
  destruct (alloc_inv a1 a2 n2 p2 H2) as (_ & Hfind2 & _).
  assert (Hfit2 : fits a1 (align_num_bytes a1 n2) (p2 - m_block_alignment a1) = true)
    by (eapply find_some; exact Hfind2).
  apply fits_size in Hfit2. destruct Hfit2 as (Hfree & _).
  destruct (alloc_config _ _ _ _ H1) as (_ & _ & _ & Hhdr).
  intros Heq. subst p2. rewrite Hhdr in Hfree.
  rewrite is_occupied_is_free, Hfree in Hocc. discriminate.
Qed.

Lemma alloc_twice_distinct_witness :
  match alloc (buf64 (fun _ => 0)) 8 with
  | Ok (a1, Some p1) =>
      match alloc a1 8 with
      | Ok (a2, Some p2) => p1 <> p2
      | _ => False
      end
  | _ => False
  end.
Proof.
  destruct (alloc (buf64 (fun _ => 0)) 8) as [[a1 [p1|]]|e] eqn:H1;
    try (vm_compute in H1; discriminate).
  destruct (alloc a1 8) as [[a2 [p2|]]|e] eqn:H2.
  - assert (HR : 4 <= align_num_bytes (buf64 (fun _ => 0)) 8)
      by (vm_compute; discriminate).
    exact (alloc_twice_distinct _ _ _ _ _ _ _ H1 HR H2).
  - vm_compute in H1. injection H1 as <- _. vm_compute in H2. discriminate.
  - vm_compute in H1. injection H1 as <- _. vm_compute in H2. discriminate.
Defined.

(** X11.  When [alloc] splits the block it selected, the block keeps the
    rounded request [R] as its size, [get_next] of the block is the new
    header [R] bytes after the block's start, [get_prev] of the new header
    is the block, the new header is free with the leftover size, and the
    counter grew by a header footprint and [R]. *)
Theorem alloc_split_links (a a' : allocator) (n p : Z)
  (Halloc : alloc a n = Ok (a', Some p))
  (HR : 4 <= align_num_bytes a n)
  (Hsplit : u32 (align_num_bytes a n + m_align_bytes a + m_block_alignment a)
            <= get_size a (p - m_block_alignment a)) :
  let R := align_num_bytes a n in
  let b := p - m_block_alignment a in
  get_size a' b = R /\
  get_next a' b = Some (b + R) /\
  get_prev a' (b + R) = Some b /\
  is_free a' (b + R) = true /\
  get_size a' (b + R) = u32 (get_size a b - R - m_block_alignment a) mod 2 ^ 31 /\
  occupied_bytes a' = u32 (occupied_bytes a + m_block_alignment a + R).
Proof.
  intros R b.
  destruct (alloc_inv a a' n p Halloc) as (Hn & Hfind & Htake).
  fold R b in Hfind, Htake.
  assert (Hfit : fits a R b = true) by (eapply find_some; exact Hfind).
  assert (Hin : In b (all_blocks a)) by (eapply find_some; exact Hfind).
  apply all_blocks_ge in Hin.
  destruct (alloc_config _ _ _ _ Halloc) as (Hmem & _).
  destruct (take_block_inv a a' R b (Some p) Hfit HR Htake)
    as (_ & _ & [(Hsmall & _)|(_ & Hend & Hs & Hnext & Hfree & Hsn & Hprev & Hc)]).
  - fold R b in Hsplit. lia.
  - repeat split; try assumption.
    unfold get_prev. rewrite Hprev, Hmem.
    replace (b + R - R) with b by lia.
    destruct (Z.ltb_spec b (m_mem a)); [lia|].
    destruct (Z.gtb_spec R 0); [reflexivity|lia].
Qed.

Lemma alloc_split_links_witness :
  match alloc (buf64 (fun _ => 0)) 8 with
  | Ok (a', Some p) =>
      let a := buf64 (fun _ => 0) in
      let R := align_num_bytes a 8 in
      let b := p - m_block_alignment a in
      get_size a' b = R /\
      get_next a' b = Some (b + R) /\
      get_prev a' (b + R) = Some b /\
      is_free a' (b + R) = true /\
      get_size a' (b + R) = u32 (get_size a b - R - m_block_alignment a) mod 2 ^ 31 /\
      occupied_bytes a' = u32 (occupied_bytes a + m_block_alignment a + R)
  | _ => False
  end.
Proof.
  destruct (alloc (buf64 (fun _ => 0)) 8) as [[a' [p|]]|e] eqn:Halloc;
    try (vm_compute in Halloc; discriminate).
  assert (HR : 4 <= align_num_bytes (buf64 (fun _ => 0)) 8)
    by (vm_compute; discriminate).
  assert (Hp : p = 1008).
  { pose proof Halloc as Hc. vm_compute in Hc. injection Hc as _ Hp.
    symmetry. exact Hp. }
  assert (Hsplit : u32 (align_num_bytes (buf64 (fun _ => 0)) 8
                        + m_align_bytes (buf64 (fun _ => 0))
                        + m_block_alignment (buf64 (fun _ => 0)))
                   <= get_size (buf64 (fun _ => 0))
                        (p - m_block_alignment (buf64 (fun _ => 0)))).
  { rewrite Hp. vm_compute. discriminate. }
  exact (alloc_split_links _ _ _ _ Halloc HR Hsplit).
Defined.

Lemma u32_bound (x : Z) : 0 <= u32 x < 2 ^ 32.
Proof. unfold u32. apply Z.mod_pos_bound. lia. Qed.

Lemma align_num_bytes_bound (a : allocator) (n : Z) :
  0 <= align_num_bytes a n < 2 ^ 32.
Proof. unfold align_num_bytes. apply u32_bound. Qed.

(** X12.  [alloc] always ends, and its only abnormal end is the store
    through null at line 98: it happens only when the selected block is
    split and the rounded request is 0 or reaches the end of the buffer
    from the block's start. *)
Theorem alloc_fault_cause (a : allocator) (n : Z) (e : fault)
  (Hfault : alloc a n = Err e) :
  let R := align_num_bytes a n in
  e = NullDeref /\ n <> 0 /\
  exists b,
    find (fits a R) (all_blocks a) = Some b /\
    u32 (R + m_align_bytes a + m_block_alignment a) <= get_size a b /\
    (R = 0 \/ m_mem a + m_size a <= b + R).
Proof.
  intros R. split; [eapply alloc_fault; exact Hfault|].
  assert (Hn : n <> 0).
  { intros ->. cbn in Hfault. discriminate. }
  split; [exact Hn|].
  rewrite (alloc_first_fit a n Hn) in Hfault. fold R in Hfault.
  destruct (find _ _) as [b|] eqn:Hfind; [|discriminate].
  exists b. split; [reflexivity|].
  assert (Hfit : fits a R b = true) by (eapply find_some; exact Hfind).
  apply fits_size in Hfit. destruct Hfit as (_ & Hsz).
  pose proof (align_num_bytes_bound a n) as HRb. fold R in HRb.
  unfold take_block in Hfault. rewrite get_size_set_occupied in Hfault.
  cbn [m_align_bytes m_block_alignment set_occupied set_size_flags with_ram]
    in Hfault.
  fold (set_size_flags a b (Z.lor (size_flags a b) FLAG_MASK)) in Hfault.
  fold (set_occupied a b) in Hfault.
  destruct (Z.geb_spec (get_size a b)
              (u32 (R + m_align_bytes a + m_block_alignment a))); [|discriminate].
  split; [assumption|].
  destruct (get_next (set_size (set_occupied a b) b R) b) as [q|] eqn:Hq;
    [discriminate|].
  apply get_next_None in Hq. rewrite get_size_set_size in Hq.
  rewrite Z.mod_small in Hq by lia. cbn in Hq. lia.
Qed.

Lemma alloc_fault_cause_witness :
  let a := buf64 (fun _ => 0) in
  let R := align_num_bytes a 4294967295 in
  alloc a 4294967295 = Err NullDeref /\
  NullDeref = NullDeref /\ 4294967295 <> 0 /\
  exists b,
    find (fits a R) (all_blocks a) = Some b /\
    u32 (R + m_align_bytes a + m_block_alignment a) <= get_size a b /\
    (R = 0 \/ m_mem a + m_size a <= b + R).
Proof.
  intros a R.
  assert (H : alloc a 4294967295 = Err NullDeref) by (vm_compute; reflexivity).
  split; [exact H | exact (alloc_fault_cause a 4294967295 NullDeref H)].
Defined.

(** ** Which bytes the calls write *)

Lemma store32_other_byte (m : memory) (p v x : Z) :
  x < p \/ p + 4 <= x -> store32 m p v x = m x.
Proof.
  intros H. unfold store32, store8. eqb_cases.
Qed.

Lemma ram_set_size_flags (a : allocator) (b v x : Z) :
  x < b \/ b + 4 <= x -> ram (set_size_flags a b v) x = ram a x.
Proof. intros H. cbn. apply store32_other_byte. exact H. Qed.

Lemma ram_set_prev (a : allocator) (b v x : Z) :
  x < b + 4 \/ b + 8 <= x -> ram (set_prev a b v) x = ram a x.
Proof. intros H. cbn. apply store32_other_byte. lia. Qed.

(** X13.  A successful [alloc] writes the size_flags word of the block it
    hands out and, at most, the eight header bytes [R] bytes after the
    start of that block; every other byte of memory keeps its value. *)
Theorem alloc_writes_two_headers (a a' : allocator) (n p x : Z)
  (Halloc : alloc a n = Ok (a', Some p))
  (Hblock : x < p - m_block_alignment a \/ p - m_block_alignment a + 4 <= x)
  (Hnew : x < p - m_block_alignment a + align_num_bytes a n \/
          p - m_block_alignment a + align_num_bytes a n + 8 <= x) :
  ram a' x = ram a x.
Proof.
  destruct (alloc_inv a a' n p Halloc) as (_ & Hfind & Htake).
  set (R := align_num_bytes a n) in *. set (b := p - m_block_alignment a) in *.
  assert (Hfit : fits a R b = true) by (eapply find_some; exact Hfind).
  apply fits_size in Hfit. destruct Hfit as (_ & Hsz).
  pose proof (align_num_bytes_bound a n) as HRb. fold R in HRb.
  unfold take_block in Htake.
  destruct (_ >=? _).
  - destruct (get_next _ b) as [q|] eqn:Hq; [|discriminate].
    apply get_next_Some in Hq. destruct Hq as (Hq & _).
    unfold set_size at 1 in Hq. rewrite get_size_set_size_flags in Hq.
    assert (Hmod : Z.lor (Z.land (size_flags (set_occupied a b) b) FLAG_MASK)
                     (Z.land R SIZE_MASK) mod 2 ^ 31 = R).
    { pose proof (get_size_set_size (set_occupied a b) b R) as Hg.
      unfold set_size in Hg. rewrite get_size_set_size_flags in Hg.
      rewrite Hg. apply Z.mod_small. lia. }
    rewrite Hmod in Hq. subst q.
    injection Htake as <- _.
    cbn [ram with_occupied].
    unfold set_size, set_free, set_occupied.
    rewrite ram_set_prev by lia.
    repeat rewrite ram_set_size_flags by lia. reflexivity.
  - injection Htake as <- _. cbn [ram with_occupied].
    unfold set_occupied. rewrite ram_set_size_flags by lia. reflexivity.
Qed.

Lemma alloc_writes_two_headers_witness :
  match alloc (buf64 (fun _ => 0)) 8 with
  | Ok (a', Some p) => ram a' 1020 = ram (buf64 (fun _ => 0)) 1020
  | _ => False
  end.
Proof.
  destruct (alloc (buf64 (fun _ => 0)) 8) as [[a' [p|]]|e] eqn:Halloc;
    try (vm_compute in Halloc; discriminate).
  assert (Hp : p = 1008).
  { pose proof Halloc as Hc. vm_compute in Hc. injection Hc as _ Hp.
    symmetry. exact Hp. }
  apply (alloc_writes_two_headers _ _ _ _ 1020 Halloc);
    rewrite Hp; vm_compute; right; discriminate.
Defined.

(** ** The constructor *)

Lemma u32_idem (x : Z) : u32 (u32 x) = u32 x.
Proof. unfold u32. apply Z.mod_mod. lia. Qed.

Lemma load32_zero (m : memory) (p : Z) :
  (forall x, p <= x < p + 4 -> m x = 0) -> load32 m p = 0.
Proof.
  intros H. unfold load32, load8.
  rewrite (H p), (H (p + 1)), (H (p + 2)), (H (p + 3)) by lia. reflexivity.
Qed.

(** X14.  The constructor: the buffer address and size are the arguments,
    an alignment of 0 becomes 1, the header footprint is the rounded header
    size, the counter starts at one footprint, and the first block is free,
    has no previous block and has the buffer size minus the footprint as
    its size (in 31 bits). *)
Theorem allocator_new_state (ram0 : memory) (mem size align_bytes : Z) :
  let a := allocator_new ram0 mem size align_bytes in
  m_mem a = mem /\
  total_bytes a = size /\
  m_align_bytes a = (if align_bytes >? 0 then align_bytes else 1) /\
  m_block_alignment a = align_num_bytes a sizeof_Block /\
  occupied_bytes a = m_block_alignment a /\
  is_free a mem = true /\
  get_size a mem = (size - m_block_alignment a) mod 2 ^ 31 /\
  prev a mem = 0 /\
  get_prev a mem = None.
Proof.
  intros a.
  assert (Hprev : prev a mem = 0).
  { unfold a, allocator_new. cbn [m_mem m_size m_block_alignment with_occupied].
    change (prev (with_occupied ?s _) mem) with (prev s mem).
    unfold set_free, set_size.
    rewrite !prev_set_size_flags by (cbn; lia).
    change (prev (with_block_alignment ?s _) mem) with (prev s mem).
    cbn [m_mem]. rewrite prev_set_prev. reflexivity. }
  repeat split.
  - unfold a, allocator_new. cbn [occupied_bytes m_occupied with_occupied].
    cbn -[u32 align_num_bytes]. unfold align_num_bytes.
    apply u32_idem.
  - unfold a, allocator_new. cbn [m_mem].
    change (is_free (with_occupied ?s _) mem) with (is_free s mem).
    apply is_free_set_free.
  - unfold a, allocator_new. cbn [m_mem].
    change (get_size (with_occupied ?s _) mem) with (get_size s mem).
    rewrite get_size_set_free, get_size_set_size. unfold u32.
    apply mod32_mod31.
  - exact Hprev.
  - unfold get_prev. rewrite Hprev. rewrite Z.sub_0_r.
    change (m_mem a) with mem. rewrite Z.ltb_irrefl. reflexivity.
Qed.

(** X15.  For a buffer of at least 8 bytes the constructor zeroes every
    byte of the buffer after the first header and writes nothing outside
    the buffer. *)
Theorem allocator_new_memory (ram0 : memory) (mem size align_bytes : Z)
  (Hsize : 8 <= size) :
  let a := allocator_new ram0 mem size align_bytes in
  (forall x, mem + 8 <= x < mem + size -> ram a x = 0) /\
  (forall x, x < mem \/ mem + size <= x -> ram a x = ram0 x).
Proof.
  intros a. unfold a, allocator_new. cbn [m_mem ram with_occupied].
  unfold set_free, set_size.
  split; intros x H.
  - rewrite !ram_set_size_flags by (cbn; lia).
    change (ram (with_block_alignment ?s _)) with (ram s).
    rewrite ram_set_prev by (cbn; lia).
    cbn [ram]. unfold memset0.
    destruct (Z.leb_spec mem x); [|lia].
    destruct (Z.ltb_spec x (mem + size)); [reflexivity|lia].
  - rewrite !ram_set_size_flags by (cbn; lia).
    change (ram (with_block_alignment ?s _)) with (ram s).
    rewrite ram_set_prev by (cbn; lia).
    cbn [ram]. unfold memset0.
    destruct (Z.leb_spec mem x); [|reflexivity].
    destruct (Z.ltb_spec x (mem + size)); [lia|reflexivity].
Qed.

Lemma allocator_new_memory_witness :
  8 <= 64 /\
  let a := allocator_new (fun x => x) 1000 64 8 in
  (forall x, 1000 + 8 <= x < 1000 + 64 -> ram a x = 0) /\
  (forall x, x < 1000 \/ 1000 + 64 <= x -> ram a x = (fun y : Z => y) x).
Proof.
  assert (H : 8 <= 64) by lia.
  split; [exact H | exact (allocator_new_memory (fun x => x) 1000 64 8 H)].
Defined.

Lemma take_block_ok (a : allocator) (R b : Z) :
  fits a R b = true -> 0 < R -> b + R < m_mem a + m_size a ->
  exists a', take_block a R b = Ok (a', Some (b + m_block_alignment a)).
Proof.
  intros Hfit HR Hin. apply fits_size in Hfit. destruct Hfit as (_ & Hsz).
  unfold take_block.
  destruct (_ >=? _); [|eexists; reflexivity].
  assert (Hnext : get_next (set_size (set_occupied a b) b R) b = Some (b + R)).
  { apply get_next_Some. rewrite get_size_set_size.
    rewrite Z.mod_small by lia. cbn. lia. }
  rewrite Hnext. eexists. reflexivity.
Qed.

Lemma all_blocks_unfold (a : allocator) :
  all_blocks a = m_mem a :: blocks (Z.to_nat (m_size a)) a (get_next a (m_mem a)).
Proof. reflexivity. Qed.

(** X16.  The first request on a freshly constructed allocator (alignment
    at most 2^32 - 8, buffer of at least one footprint and below 2^31
    bytes): a request whose rounded size
    is positive and at most the buffer size minus the footprint gets the
    pointer one footprint past the buffer start; a request whose rounded
    size is larger gets null (payload 0 or at least 8 bytes). *)
Theorem fresh_alloc (ram0 : memory) (mem size align_bytes n : Z)
  (Halign : 0 <= align_bytes <= 2 ^ 32 - 8)
  (Hsize : m_block_alignment (allocator_new ram0 mem size align_bytes) <= size
           < 2 ^ 31)
  (Hn : n <> 0) :
  let a := allocator_new ram0 mem size align_bytes in
  let R := align_num_bytes a n in
  let payload := size - m_block_alignment a in
  (0 < R <= payload ->
   exists a', alloc a n = Ok (a', Some (mem + m_block_alignment a))) /\
  (payload < R -> payload = 0 \/ 8 <= payload -> alloc a n = Ok (a, None)).
Proof.
  intros a R payload. fold a in Hsize.
  destruct (allocator_new_state ram0 mem size align_bytes)
    as (Hmem & Htot & Hal & Hhdr & Hocc & Hfree & Hsz & Hprev & _).
  fold a in Hmem, Htot, Hal, Hhdr, Hocc, Hfree, Hsz, Hprev.
  unfold total_bytes in Htot.
  assert (Hal0 : 0 < m_align_bytes a <= 2 ^ 32 - 8).
  { rewrite Hal. destruct (Z.gtb_spec align_bytes 0); lia. }
  assert (Hhdr8 : 8 <= m_block_alignment a).
  { rewrite Hhdr. unfold sizeof_Block.
    apply (align_num_bytes_round_up a 8); lia. }
  assert (Hsz' : get_size a mem = payload).
  { rewrite Hsz. apply Z.mod_small. unfold payload. lia. }
  rewrite (alloc_first_fit a n Hn). fold R.
  rewrite all_blocks_unfold, Hmem, Htot.
  split.
  - intros HR. cbn [find]. unfold fits at 1. rewrite Hfree, Hsz'.
    destruct (Z.leb_spec R payload); [|lia]. cbn [andb].
    assert (Hfit : fits a R mem = true).
    { unfold fits. rewrite Hfree, Hsz'.
      destruct (Z.leb_spec R payload); [reflexivity|lia]. }
    apply take_block_ok; [exact Hfit|lia|].
    rewrite Hmem, Htot. unfold payload in *. lia.
  - intros HR Hpay. cbn [find]. unfold fits at 1. rewrite Hfree, Hsz'.
    destruct (Z.leb_spec R payload); [lia|]. cbn [andb].
    destruct Hpay as [Hzero|Hbig].
    + assert (Hnone : get_next a mem = None).
      { apply get_next_None. right. lia. }
      rewrite Hnone, blocks_None. reflexivity.
    + assert (Hnext : get_next a mem = Some (mem + payload)).
      { apply get_next_Some. rewrite Hsz', Hmem, Htot.
        unfold payload in *. lia. }
      rewrite Hnext.
      assert (Hzero : size_flags a (mem + payload) = 0).
      { unfold a, allocator_new. cbn [m_mem m_size m_block_alignment].
        change (size_flags (with_occupied ?s _) ?x) with (size_flags s x).
        unfold set_free, set_size.
        rewrite !size_flags_set_other by (cbn; lia).
        change (size_flags (with_block_alignment ?s _) ?x) with (size_flags s x).
        rewrite size_flags_set_prev by (cbn; lia).
        unfold size_flags. cbn [ram]. apply load32_zero.
        intros x Hx. unfold memset0.
        destruct (Z.leb_spec mem x); [|lia].
        destruct (Z.ltb_spec x (mem + size)); [reflexivity|].
        unfold payload in *. lia. }
      assert (Hsz2 : get_size a (mem + payload) = 0).
      { unfold get_size. rewrite Hzero. reflexivity. }
      destruct (Z.to_nat size) as [|k] eqn:Hk; [lia|].
      cbn [blocks find].
      assert (Hnone : get_next a (mem + payload) = None).
      { apply get_next_None. right. lia. }
      rewrite Hnone, blocks_None. cbn [find].
      unfold fits. rewrite Hsz2.
      destruct (Z.leb_spec R 0); [lia|]. rewrite andb_false_r. reflexivity.
Qed.

Lemma fresh_alloc_witness :
  let a := allocator_new (fun _ => 0) 1000 72 8 in
  (exists a', alloc a 64 = Ok (a', Some (1000 + m_block_alignment a))) /\
  alloc a 65 = Ok (a, None).
Proof.
  intros a.
  assert (Halign : 0 <= 8 <= 2 ^ 32 - 8) by lia.
  assert (Hsize : m_block_alignment (allocator_new (fun _ => 0) 1000 72 8) <= 72
                  < 2 ^ 31) by (vm_compute; split; [discriminate|reflexivity]).
  split.
  - apply (fresh_alloc (fun _ => 0) 1000 72 8 64 Halign Hsize); [lia|].
    vm_compute. split; [reflexivity|discriminate].
  - apply (fresh_alloc (fun _ => 0) 1000 72 8 65 Halign Hsize); [lia| |].
    + vm_compute. reflexivity.
    + right. vm_compute. discriminate.
Defined.

(** ** free *)

Lemma is_free_set_size_other (a : allocator) (p s x : Z) :
  x + 4 <= p \/ p + 4 <= x -> is_free (set_size a p s) x = is_free a x.
Proof.
  intros H. apply is_free_ext. unfold set_size.
  apply size_flags_set_other. exact H.
Qed.

Lemma get_prev_Some (a : allocator) (b p : Z) :
  get_prev a b = Some p <-> p = b - prev a b /\ m_mem a <= p /\ 0 < prev a b.
Proof.
  unfold get_prev.
  destruct (Z.ltb_spec (b - prev a b) (m_mem a)) as [Hlo|Hlo];
    destruct (Z.gtb_spec (prev a b) 0) as [Hpos|Hpos];
    split; intros H; try discriminate; try (injection H as <-); try lia.
  destruct H as (-> & _ & _). reflexivity.
Qed.

(** X17.  An in-range [free] leaves the released block marked free, when
    the block's [prev] is 0 or at least 4 (the previous header does not
    overlap the block's size_flags word). *)
Theorem free_marks_free (a : allocator) (mem : Z)
  (Hin : m_mem a <= mem - m_block_alignment a < m_mem a + m_size a)
  (Hprev : prev a (mem - m_block_alignment a) = 0 \/
           4 <= prev a (mem - m_block_alignment a)) :
  is_free (free a mem) (mem - m_block_alignment a) = true.
Proof.
  unfold free.
  destruct (Z.geb_spec (mem - m_block_alignment a) (m_mem a + m_size a)); [lia|].
  destruct (Z.ltb_spec (mem - m_block_alignment a) (m_mem a)); [lia|].
  cbn [orb].
  set (b := mem - m_block_alignment a) in *.
  set (a1 := with_occupied (set_free a b) _).
  assert (Hf1 : is_free a1 b = true) by apply is_free_set_free.
  assert (Hp1 : prev a1 b = prev a b).
  { unfold a1. change (prev (with_occupied ?s _) b) with (prev s b).
    unfold set_free. apply prev_set_size_flags. lia. }
  assert (Hstep : forall a2 b2 r1,
             coalesce_prev a1 b false = (a2, b2, r1) ->
             is_free a2 b = true /\ (b2 = b \/ b2 + 4 <= b)).
  { intros a2 b2 r1 Hcp'. unfold coalesce_prev in Hcp'.
    destruct (get_prev a1 b) as [p|] eqn:Hgp.
    - apply get_prev_Some in Hgp. destruct Hgp as (Hp & _ & Hpos).
      rewrite Hp1 in Hp, Hpos.
      destruct (is_free a1 p).
      + injection Hcp' as <- <- _. split; [|right; lia].
        rewrite is_free_set_size_other by lia. exact Hf1.
      + injection Hcp' as <- <- _. split; [exact Hf1 | left; reflexivity].
    - injection Hcp' as <- <- _. split; [exact Hf1 | left; reflexivity]. }
  destruct (coalesce_prev a1 b false) as [[a2 b2] r1] eqn:Hcp.
  destruct (Hstep a2 b2 r1 eq_refl) as (Hf2 & Hb2).
  assert (Hf3 : is_free (fst (coalesce_next a2 b2 r1)) b = true).
  { unfold coalesce_next. destruct (get_next a2 b2) as [q|]; [|exact Hf2].
    destruct (is_free a2 q); [|exact Hf2]. cbn [fst].
    destruct Hb2 as [->|Hfar].
    - rewrite is_free_set_size. exact Hf2.
    - rewrite is_free_set_size_other by lia. exact Hf2. }
  destruct (coalesce_next a2 b2 r1) as [a3 r]. cbn [fst] in Hf3.
  destruct r; exact Hf3.
Qed.

Lemma free_marks_free_witness :
  match alloc (buf64 (fun _ => 0)) 8 with
  | Ok (a, Some p) => is_occupied a (p - m_block_alignment a) = true /\
                      is_free (free a p) (p - m_block_alignment a) = true
  | _ => False
  end.
Proof.
  destruct (alloc (buf64 (fun _ => 0)) 8) as [[a [p|]]|e] eqn:Halloc;
    try (vm_compute in Halloc; discriminate).
  pose proof Halloc as Hc. vm_compute in Hc. injection Hc as Ha Hp.
  split.
  - rewrite <- Ha, <- Hp. vm_compute. reflexivity.
  - apply free_marks_free.
    + rewrite <- Ha, <- Hp. vm_compute. split; [discriminate|reflexivity].
    + left. rewrite <- Ha, <- Hp. vm_compute. reflexivity.
Defined.



Lemma coalesce_prev_no_merge (a : allocator) (b : Z) :
  snd (coalesce_prev a b false) = false ->
  coalesce_prev a b false = (a, b, false).
Proof.
  unfold coalesce_prev. destruct (get_prev a b) as [p|]; [|reflexivity].
  destruct (is_free a p); [discriminate|reflexivity].
Qed.

(** X19.  When [alloc] split the block it selected, releasing the returned
    pointer at once brings [occupied_bytes] back to its value before the
    allocation. *)
Theorem split_alloc_free_restores_counter (a a' : allocator) (n p : Z)
  (Halloc : alloc a n = Ok (a', Some p))
  (HR : 4 <= align_num_bytes a n)
  (Hsplit : u32 (align_num_bytes a n + m_align_bytes a + m_block_alignment a)
            <= get_size a (p - m_block_alignment a))
  (Hocc : 0 <= occupied_bytes a < 2 ^ 32) :
  occupied_bytes (free a' p) = occupied_bytes a.
Proof.
  set (R := align_num_bytes a n) in *. set (b := p - m_block_alignment a) in *.
  destruct (alloc_inv a a' n p Halloc) as (Hn & Hfind & Htake).
  fold R b in Hfind, Htake.
  assert (Hfit : fits a R b = true) by (eapply find_some; exact Hfind).
  assert (Hin : In b (all_blocks a)) by (eapply find_some; exact Hfind).
  apply all_blocks_ge in Hin.
  destruct (alloc_config _ _ _ _ Halloc) as (Hmem & Hsize & _ & Hhdr).
  destruct (take_block_inv a a' R b (Some p) Hfit HR Htake)
    as (_ & _ & [(Hsmall & _)|(_ & Hend & Hs & Hnext & Hfree & _ & _ & Hc)]);
    [lia|].
  assert (Hb' : p - m_block_alignment a' = b) by (unfold b; lia).
  assert (Hrange : m_mem a' <= p - m_block_alignment a' < m_mem a' + m_size a').
  { rewrite Hb', Hmem, Hsize. lia. }
  rewrite (free_occupied a' p Hrange). rewrite Hb', Hs, Hc, Hhdr.
  assert (Hmerge : fst (free_merges a' p) || snd (free_merges a' p) = true).
  { unfold free_merges. rewrite Hb'.
    destruct (Z.geb_spec b (m_mem a' + m_size a')); [lia|].
    destruct (Z.ltb_spec b (m_mem a')); [lia|]. cbn [orb].
    set (a1 := with_occupied (set_free a' b) _).
    destruct (coalesce_prev a1 b false) as [[a2 b2] r1] eqn:Hcp.
    destruct r1.
    - destruct (coalesce_next a2 b2 false). reflexivity.
    - pose proof (coalesce_prev_no_merge a1 b) as Hno.
      rewrite Hcp in Hno. specialize (Hno eq_refl).
      injection Hno as -> ->.
      assert (Hsz1 : get_size a1 b = R).
      { unfold a1. change (get_size (with_occupied ?s _) b) with (get_size s b).
        rewrite get_size_set_free. exact Hs. }
      assert (Hn1 : get_next a1 b = Some (b + R)).
      { apply get_next_Some. rewrite Hsz1.
        change (m_mem a1) with (m_mem a'). change (m_size a1) with (m_size a').
        rewrite Hmem, Hsize. lia. }
      assert (Hf1 : is_free a1 (b + R) = true).
      { unfold a1.
        change (is_free (with_occupied ?s _) ?x) with (is_free s x).
        rewrite (is_free_ext _ a'); [exact Hfree|].
        unfold set_free. apply size_flags_set_other. lia. }
      unfold coalesce_next. rewrite Hn1, Hf1. reflexivity. }
  rewrite Hmerge. unfold occupied_bytes in *.
  rewrite <- Z.sub_add_distr, u32_sub_l. unfold u32.
  replace (m_occupied a + m_block_alignment a + R - (R + m_block_alignment a))
    with (m_occupied a) by lia.
  apply Z.mod_small. exact Hocc.
Qed.

Lemma split_alloc_free_restores_counter_witness :
  match alloc (buf64 (fun _ => 0)) 8 with
  | Ok (a', Some p) =>
      occupied_bytes (free a' p) = occupied_bytes (buf64 (fun _ => 0))
  | _ => False
  end.
Proof.
  destruct (alloc (buf64 (fun _ => 0)) 8) as [[a' [p|]]|e] eqn:Halloc;
    try (vm_compute in Halloc; discriminate).
  assert (HR : 4 <= align_num_bytes (buf64 (fun _ => 0)) 8)
    by (vm_compute; discriminate).
  assert (Hp : p = 1008).
  { pose proof Halloc as Hc. vm_compute in Hc. injection Hc as _ Hp.
    symmetry. exact Hp. }
  assert (Hsplit : u32 (align_num_bytes (buf64 (fun _ => 0)) 8
                        + m_align_bytes (buf64 (fun _ => 0))
                        + m_block_alignment (buf64 (fun _ => 0)))
                   <= get_size (buf64 (fun _ => 0))
                        (p - m_block_alignment (buf64 (fun _ => 0)))).
  { rewrite Hp. vm_compute. discriminate. }
  assert (Hocc : 0 <= occupied_bytes (buf64 (fun _ => 0)) < 2 ^ 32).
  { vm_compute. split; [discriminate|reflexivity]. }
  exact (split_alloc_free_restores_counter _ _ _ _ Halloc HR Hsplit Hocc).
Defined.

(** X20.  The counter after an in-range [free]: without a merge it drops
    by the payload size of the released block, with a merge (backward,
    forward or both) by the payload size and one header footprint. *)
Theorem free_counter (a : allocator) (mem : Z)
  (Hin : m_mem a <= mem - m_block_alignment a < m_mem a + m_size a) :
  let b := mem - m_block_alignment a in
  (free_merges a mem = (false, false) ->
   occupied_bytes (free a mem) = u32 (occupied_bytes a - get_size a b)) /\
  (free_merges a mem <> (false, false) ->
   occupied_bytes (free a mem)
   = u32 (occupied_bytes a - get_size a b - m_block_alignment a)).
Proof.
  intros b. rewrite (free_occupied a mem Hin). fold b. unfold occupied_bytes.
  destruct (free_merges a mem) as [[|] [|]]; cbn [fst snd orb]; split;
    intros H; try congruence; rewrite ?Z.sub_0_r; reflexivity.
Qed.

Lemma free_counter_witness :
  match run (buf64 (fun _ => 0)) [] [Alloc 8; Alloc 8; Free 0%nat] with
  | Ok (a, _) =>
      (m_mem a <= 1016 - m_block_alignment a < m_mem a + m_size a) /\
      free_merges a 1016 <> (false, false) /\
      occupied_bytes (free a 1016)
      = u32 (occupied_bytes a - get_size a (1016 - m_block_alignment a)
             - m_block_alignment a)
  | Err _ => False
  end.
Proof.
  destruct (run (buf64 (fun _ => 0)) [] [Alloc 8; Alloc 8; Free 0%nat])
    as [[a ps]|e] eqn:Hrun; [|vm_compute in Hrun; discriminate].
  pose proof Hrun as Hc. vm_compute in Hc. injection Hc as Ha _.
  assert (Hin : m_mem a <= 1016 - m_block_alignment a < m_mem a + m_size a).
  { rewrite <- Ha. vm_compute. split; [discriminate|reflexivity]. }
  assert (Hm : free_merges a 1016 <> (false, false)).
  { rewrite <- Ha. vm_compute. discriminate. }
  split; [exact Hin|]. split; [exact Hm|].
  exact (proj2 (free_counter a 1016 Hin) Hm).
Defined.
